(** * Query_result_intersect: the materialization sink of sql/sql_intersect.{h,cc}

    The sink receives the rows of the branches of a set operation and stores
    them in a temporary table, counting the rows the table retained.  The
    table, its handler and the helpers of the server (fill_record,
    check_unique_constraint, create_tmp_table, ...) are collaborators that the
    two source files only call; they enter the development as the interface
    [Storage].  The methods of the class are written in a small monad that
    threads the object, records the calls made to the collaborators and can
    abort (a failed [assert], a dereferenced null [table]). *)

From Stdlib Require Import ZArith List Bool Lia String.
Import ListNotations.
Open Scope Z_scope.

Set Implicit Arguments.

(** ** Collaborators' data *)

(** Query_expression, as far as the sink looks at it: [unit->is_recursive()]
    and [unit->mixed_intersect_operators()]. *)
Record Query_expression := mkQuery_expression {
  is_recursive : bool;
  mixed_intersect_operators : bool
}.

(** What count_field_types() writes into a Temp_table_param. *)
Record Field_counts := mkField_counts {
  field_count : nat;
  func_count : nat;
  sum_func_count : nat
}.

(** Temp_table_param, restricted to the members the sink reads or writes. *)
Record Temp_table_param := mkTemp_table_param {
  counts : Field_counts;
  skip_create_table : bool;
  bit_fields_as_long : bool;
  can_use_pk_for_unique : bool;
  force_hash_field_for_unique : bool
}.

(** Modelled from the spec: the default constructor [Temp_table_param()] is
    declared in sql/temp_table_param.h, which is not among the sources.  The
    data model (section 3) describes the flag that forces hash-based
    uniqueness and the flag that disables the native key as being *set* for
    mixed and recursive queries respectively, so a fresh parameter object has
    the native key allowed, no forced hash field, and a table that is
    created. *)
Definition Temp_table_param_default : Temp_table_param :=
  {| counts := mkField_counts 0 0 0;
     skip_create_table := false;
     bit_fields_as_long := false;
     can_use_pk_for_unique := true;
     force_hash_field_for_unique := false |}.

(** TABLE, restricted to [file], [record[0]] and [hash_field]
    ([hash_field] is a pointer in the source; only its nullness is read). *)
Record TABLE (Row handler : Type) := mkTABLE {
  file : handler;
  record_0 : Row;
  hash_field : bool
}.

Inductive ha_extra_function := HA_EXTRA_IGNORE_DUP_KEY.

(** The three classes of handler errors of the storage interface
    (spec, section 6: classifyError). *)
Inductive ErrorClass := Ignorable | CapacityExceeded | Other.

Inductive DeduplicationDecision :=
  NoDeduplication | NativeUniqueKey | HashPseudoKey.

(** ** The storage interface

    Everything the two source files call but do not define. *)
Class Storage := {
  Item : Type;
  Row : Type;
  handler : Type;
  (** [VisibleFields] keeps the items that are not hidden. *)
  hidden : Item -> bool;
  count_field_types : list Item -> Field_counts;
  (** create_tmp_table(thd, param, fields, nullptr, distinct, true, options,
      HA_POS_ERROR, alias); [None] is the null pointer. *)
  create_tmp_table :
    Temp_table_param -> list Item -> bool -> Z -> string ->
    option (TABLE Row handler);
  (** fill_record stores the values into the fields of record[0];
      [true] reports an error. *)
  fill_record : TABLE Row handler -> list Item -> bool * Row;
  (** check_unique_constraint: [false] when the row in record[0] is already
      in the table. *)
  check_unique_constraint : TABLE Row handler -> bool * TABLE Row handler;
  (** handler::ha_write_row: 0 on success, else a handler error code. *)
  ha_write_row : handler -> Row -> Z * handler;
  is_ignorable_error : handler -> Z -> bool;
  (** The capacity-exceeded class of handler errors. *)
  is_capacity_exceeded : Z -> bool;
  (** promoteToOnDiskRepresentation of the storage interface. *)
  promote : handler -> option handler;
  ha_index_init : handler -> nat -> bool -> handler;
  ha_extra : handler -> ha_extra_function -> handler;
  (** TABLE::empty_result_table: [true] reports an error. *)
  empty_result_table : TABLE Row handler -> bool * TABLE Row handler
}.

(** Calls made to the collaborators, in program order. *)
Inductive Call :=
| Call_create_tmp_table (param : Temp_table_param) (distinct : bool)
| Call_ha_extra (op : ha_extra_function)
| Call_ha_index_init
| Call_fill_record
| Call_check_unique_constraint
| Call_ha_write_row (error : Z)
| Call_promote
| Call_empty_result_table.

Definition is_promote (c : Call) : bool :=
  match c with Call_promote => true | _ => false end.

Definition is_write (c : Call) : bool :=
  match c with Call_ha_write_row _ => true | _ => false end.

Definition is_check (c : Call) : bool :=
  match c with Call_check_unique_constraint => true | _ => false end.

Definition count_calls (p : Call -> bool) (l : list Call) : nat :=
  List.length (filter p l).

(** ha_rows is an unsigned 64-bit integer. *)
Definition ha_rows_modulus : Z := 2 ^ 64.

Definition ha_rows_incr (n : Z) : Z := (n + 1) mod ha_rows_modulus.

(** ** The deduplication decision *)

(** Lines 177-197 of sql_intersect.cc: the two flags that the shape of the
    query expression sets in the parameter object. *)
Definition shape_flags (u : option Query_expression) (p : Temp_table_param)
  : Temp_table_param :=
  match u with
  | None => p
  | Some u =>
      let p1 :=
        if is_recursive u
        then {| counts := counts p;
                skip_create_table := skip_create_table p;
                bit_fields_as_long := bit_fields_as_long p;
                can_use_pk_for_unique := false;
                force_hash_field_for_unique := force_hash_field_for_unique p |}
        else p in
      if mixed_intersect_operators u
      then {| counts := counts p1;
              skip_create_table := skip_create_table p1;
              bit_fields_as_long := bit_fields_as_long p1;
              can_use_pk_for_unique := can_use_pk_for_unique p1;
              force_hash_field_for_unique := true |}
      else p1
  end.

(** Modelled from the spec: how create_tmp_table (sql/sql_tmp_table.cc, not
    among the sources) resolves the uniqueness mechanism from its [distinct]
    argument and the parameter object.  Section 3: the decision is "derived
    ... as resolved fields of MaterializationParameters"; the native key is
    forbidden when the flag disabling it or the flag forcing the hash field is
    set, and the strategy then "downgrades to HashPseudoKey". *)
Definition decision (distinct : bool) (p : Temp_table_param)
  : DeduplicationDecision :=
  if negb distinct then NoDeduplication
  else if force_hash_field_for_unique p || negb (can_use_pk_for_unique p)
       then HashPseudoKey
       else NativeUniqueKey.

(** [select] of section 4.2, as the code computes it: the flags of
    create_result_table on a fresh parameter object, then the resolution. *)
Definition select (distinctnessRequired queryIsRecursive
                   mixedAllAndDistinctBranches : bool)
  : DeduplicationDecision :=
  decision distinctnessRequired
    (shape_flags
       (Some (mkQuery_expression queryIsRecursive mixedAllAndDistinctBranches))
       Temp_table_param_default).

(** The results of [insert] in section 4.3 and the failure kinds of
    section 7. *)
Inductive FailureKind := ProjectionError | StorageFatal.

Inductive Outcome :=
| Inserted
| DuplicateRejected
| Failure (kind : FailureKind).

(** ** The object and the monad of its methods *)

Section Sink.
Context {S : Storage}.

Definition Table := TABLE Row handler.

Record Query_result_intersect := mkSink {
  unit_ : option Query_expression;
  tmp_table_param : Temp_table_param;
  m_rows_in_table : Z;
  table : option Table
}.

(** The constructor: m_rows_in_table(0), table(nullptr).  [unit] is a member
    of the base class, null until prepare(). *)
Definition Query_result_intersect_new : Query_result_intersect :=
  {| unit_ := None;
     tmp_table_param := Temp_table_param_default;
     m_rows_in_table := 0;
     table := None |}.

Definition put_table (s : Query_result_intersect) (t : option Table)
  : Query_result_intersect :=
  {| unit_ := unit_ s; tmp_table_param := tmp_table_param s;
     m_rows_in_table := m_rows_in_table s; table := t |}.

Definition put_rows (s : Query_result_intersect) (n : Z)
  : Query_result_intersect :=
  {| unit_ := unit_ s; tmp_table_param := tmp_table_param s;
     m_rows_in_table := n; table := table s |}.

Inductive Crash := AssertionFailed | NullDereference.

Inductive Result (A : Type) :=
| Ret (a : A)
| Abort (c : Crash).
Arguments Abort {A} c.

Definition M (A : Type) : Type :=
  Query_result_intersect -> Result A * Query_result_intersect * list Call.

Definition ret {A} (a : A) : M A := fun s => (Ret a, s, []).

Definition bind {A B} (m : M A) (f : A -> M B) : M B :=
  fun s =>
    match m s with
    | (Ret a, s1, l1) =>
        match f a s1 with (r, s2, l2) => (r, s2, l1 ++ l2) end
    | (Abort c, s1, l1) => (Abort c, s1, l1)
    end.

Notation "x <- m ;; k" := (bind m (fun x => k))
  (at level 61, m at next level, right associativity).
Notation "m ;;; k" := (bind m (fun _ => k))
  (at level 61, right associativity).

Definition abort {A} (c : Crash) : M A := fun s => (Abort c, s, []).
Definition tell (c : Call) : M unit := fun s => (Ret tt, s, [c]).
Definition when (b : bool) (m : M unit) : M unit := if b then m else ret tt.

Definition get_table : M (option Table) := fun s => (Ret (table s), s, []).

(** [table->...]: dereferencing the member [table]. *)
Definition deref_table : M Table :=
  fun s =>
    match table s with
    | Some t => (Ret t, s, [])
    | None => (Abort NullDereference, s, [])
    end.

Definition set_table (t : option Table) : M unit :=
  fun s => (Ret tt, put_table s t, []).

Definition set_file (t : Table) (h : handler) : Table :=
  {| file := h; record_0 := record_0 t; hash_field := hash_field t |}.

Definition set_record_0 (t : Table) (r : Row) : Table :=
  {| file := file t; record_0 := r; hash_field := hash_field t |}.

Definition set_rows (n : Z) : M unit :=
  fun s => (Ret tt, put_rows s n, []).

(** [m_rows_in_table++] *)
Definition incr_rows : M unit :=
  fun s => set_rows (ha_rows_incr (m_rows_in_table s)) s.

Definition set_unit (u : Query_expression) : M unit :=
  fun s =>
    (Ret tt,
     {| unit_ := Some u; tmp_table_param := tmp_table_param s;
        m_rows_in_table := m_rows_in_table s; table := table s |}, []).

Definition get_unit : M (option Query_expression) :=
  fun s => (Ret (unit_ s), s, []).

Definition set_tmp_table_param (p : Temp_table_param) : M unit :=
  fun s =>
    (Ret tt,
     {| unit_ := unit_ s; tmp_table_param := p;
        m_rows_in_table := m_rows_in_table s; table := table s |}, []).

(** *** The calls on [table] *)

Definition do_fill_record (values : list Item) : M bool :=
  t <- deref_table ;;
  let '(err, r) := fill_record t values in
  set_table (Some (set_record_0 t r)) ;;;
  tell Call_fill_record ;;;
  ret err.

Definition do_check_unique_constraint : M bool :=
  t <- deref_table ;;
  let '(unique, t') := check_unique_constraint t in
  set_table (Some t') ;;;
  tell Call_check_unique_constraint ;;;
  ret unique.

(** [table->file->ha_write_row(table->record[0])] *)
Definition do_ha_write_row : M Z :=
  t <- deref_table ;;
  let '(error, h) := ha_write_row (file t) (record_0 t) in
  set_table (Some (set_file t h)) ;;;
  tell (Call_ha_write_row error) ;;;
  ret error.

Definition do_is_ignorable_error (error : Z) : M bool :=
  t <- deref_table ;;
  ret (is_ignorable_error (file t) error).

Definition do_ha_index_init (idx : nat) (sorted : bool) : M unit :=
  t <- deref_table ;;
  set_table (Some (set_file t (ha_index_init (file t) idx sorted))) ;;;
  tell Call_ha_index_init.

Definition do_ha_extra (op : ha_extra_function) : M unit :=
  t <- deref_table ;;
  set_table (Some (set_file t (ha_extra (file t) op))) ;;;
  tell (Call_ha_extra op).

Definition do_promote : M bool :=
  t <- deref_table ;;
  tell Call_promote ;;;
  match promote (file t) with
  | Some h => set_table (Some (set_file t h)) ;;; ret true
  | None => ret false
  end.

(** classifyError of the storage interface, from the two predicates. *)
Definition classifyError (h : handler) (error : Z) : ErrorClass :=
  if is_ignorable_error h error then Ignorable
  else if is_capacity_exceeded error then CapacityExceeded
  else Other.

(** Modelled from the spec: create_ondisk_from_heap is defined in
    sql/sql_tmp_table.cc, which is not among the sources; the sink calls it
    as [create_ondisk_from_heap(thd, table, error, true, &is_duplicate)].
    Section 4.3, step 3: on a capacity-exceeded error the representation is
    promoted to disk, keeping the handler's rows, and the original write is
    retried exactly once against the promoted store; "if the retried write
    still fails or promotion itself fails" the result is a failure; any other
    error is a failure at once ("create_ondisk_from_heap will generate error
    if needed").  The result is the pair (failed, is_duplicate); the spec
    describes no duplicate outcome of the retried write, so [is_duplicate]
    is false whenever the helper succeeds. *)
Definition create_ondisk_from_heap (error : Z) (ignore_last_dup : bool)
  : M (bool * bool) :=
  t <- deref_table ;;
  match classifyError (file t) error with
  | CapacityExceeded =>
      promoted <- do_promote ;;
      if negb promoted then ret (true, false) else
      write_err <- do_ha_write_row ;;
      if write_err =? 0 then ret (false, false) else ret (true, false)
  | _ => ret (true, false)
  end.

(** *** The methods *)

Definition prepare (u : Query_expression) : M bool :=
  set_unit u ;;;
  ret false.

Definition postponed_prepare (types : list Item) : M bool := ret false.

Definition send_data (values : list Item) : M bool :=
  failed <- do_fill_record values ;;
  if failed then ret true else
  unique <- do_check_unique_constraint ;;
  if negb unique then ret false else
  error <- do_ha_write_row ;;
  if error =? 0 then
    incr_rows ;;;
    ret false
  else
  ignorable <- do_is_ignorable_error error ;;
  if negb ignorable then
    r <- create_ondisk_from_heap error true ;;
    let '(failed, is_duplicate) := r in
    if failed then ret true else
    t <- deref_table ;;
    when (hash_field t) (do_ha_index_init 0 false) ;;;
    when (negb is_duplicate) incr_rows ;;;
    ret false
  else ret false.

Definition send_eof : M bool := ret false.

Definition flush : M bool := ret false.

Definition VisibleFields (items : list Item) : list Item :=
  filter (fun i => negb (hidden i)) items.

(** Lines 172-197: the parameter object that create_result_table builds
    and hands to create_tmp_table.  It starts from [Temp_table_param()], so
    nothing of the previous [tmp_table_param] survives. *)
Definition provisioning_param
  (u : option Query_expression) (visible_fields : list Item)
  (bit_fields_as_long_arg create_table : bool) : Temp_table_param :=
  let p0 := Temp_table_param_default in
  shape_flags u
    {| counts := count_field_types visible_fields;
       skip_create_table := negb create_table;
       bit_fields_as_long := bit_fields_as_long_arg;
       can_use_pk_for_unique := can_use_pk_for_unique p0;
       force_hash_field_for_unique := force_hash_field_for_unique p0 |}.

Definition create_result_table
  (column_types : list Item) (is_intersect_distinct : bool) (options : Z)
  (table_alias : string) (bit_fields_as_long_arg create_table : bool)
  : M bool :=
  let visible_fields := VisibleFields column_types in
  t0 <- get_table ;;
  match t0 with
  | Some _ => abort AssertionFailed
  | None =>
      u <- get_unit ;;
      let p :=
        provisioning_param u visible_fields bit_fields_as_long_arg
                           create_table in
      set_tmp_table_param p ;;;
      tell (Call_create_tmp_table p is_intersect_distinct) ;;;
      let created :=
        create_tmp_table p visible_fields is_intersect_distinct options
                         table_alias in
      set_table created ;;;
      match created with
      | None => ret true
      | Some _ =>
          when create_table
            (do_ha_extra HA_EXTRA_IGNORE_DUP_KEY ;;;
             t <- deref_table ;;
             when (hash_field t) (do_ha_index_init 0 false)) ;;;
          ret false
      end
  end.

Definition reset : M bool :=
  set_rows 0 ;;;
  t0 <- get_table ;;
  match t0 with
  | Some t =>
      let '(err, t') := empty_result_table t in
      set_table (Some t') ;;;
      tell Call_empty_result_table ;;;
      ret err
  | None => ret false
  end.

(** cleanup casts the result of reset() to void. *)
Definition cleanup : M unit :=
  reset ;;;
  ret tt.

(** [row_count()] returns the address of the counter; its value here. *)
Definition row_count (s : Query_result_intersect) : Z := m_rows_in_table s.

(** *** Reading an Outcome off a call of send_data

    send_data returns a bool, [true] for an error.  The spec's [insert] names
    what happened: a failure before any write was attempted is the failed
    projection (line 115), a failure after one is the storage's (line 128);
    a success that moved the counter retained the row, one that did not
    rejected it. *)
Definition outcome (before after : Query_result_intersect)
                   (log : list Call) (failed : bool) : Outcome :=
  if failed then
    if existsb is_write log then Failure StorageFatal
    else Failure ProjectionError
  else if m_rows_in_table after =? m_rows_in_table before
       then DuplicateRejected
       else Inserted.

Definition insert (values : list Item) : M Outcome :=
  fun s =>
    match send_data values s with
    | (Ret failed, s', log) => (Ret (outcome s s' log failed), s', log)
    | (Abort c, s', log) => (Abort c, s', log)
    end.

Fixpoint insert_all (rows : list (list Item)) : M (list Outcome) :=
  match rows with
  | [] => ret []
  | values :: rest =>
      o <- insert values ;;
      os <- insert_all rest ;;
      ret (o :: os)
  end.

(** Running a method and keeping the object only. *)
Definition exec {A} (m : M A) (s : Query_result_intersect)
  : Query_result_intersect := snd (fst (m s)).

Definition result_of {A} (m : M A) (s : Query_result_intersect)
  : Result A := fst (fst (m s)).

Definition calls_of {A} (m : M A) (s : Query_result_intersect)
  : list Call := snd (m s).

(** *** The life of an object

    The public methods, and the objects that a sequence of calls builds from
    the constructor while no create_result_table has succeeded (it returns
    [false] when the table was created). *)
Inductive Method :=
| call_prepare (u : Query_expression)
| call_postponed_prepare (types : list Item)
| call_send_data (values : list Item)
| call_send_eof
| call_flush
| call_cleanup
| call_reset
| call_create_result_table
    (column_types : list Item) (is_intersect_distinct : bool) (options : Z)
    (table_alias : string) (bit_fields_as_long_arg create_table : bool).

Definition invoke (m : Method) : M bool :=
  match m with
  | call_prepare u => prepare u
  | call_postponed_prepare types => postponed_prepare types
  | call_send_data values => send_data values
  | call_send_eof => send_eof
  | call_flush => flush
  | call_cleanup => cleanup ;;; ret false
  | call_reset => reset
  | call_create_result_table c d o a b t => create_result_table c d o a b t
  end.

Definition is_provisioning (m : Method) : bool :=
  match m with
  | call_create_result_table _ _ _ _ _ _ => true
  | _ => false
  end.

Inductive unprovisioned : Query_result_intersect -> Prop :=
| unprovisioned_new : unprovisioned Query_result_intersect_new
| unprovisioned_call (s s' : Query_result_intersect) (m : Method)
                     (b : bool) (l : list Call) :
    unprovisioned s ->
    invoke m s = (Ret b, s', l) ->
    (is_provisioning m = true -> b = true) ->
    unprovisioned s'.

End Sink.

Arguments Abort {A} c.
Arguments Ret {A} a.

Unset Implicit Arguments.

(** ** A reference storage layer

    The handler and the helpers of the server are not among the sources.
    Properties that speak of what the table holds (which rows are duplicates,
    what a promotion keeps, what emptying leaves) need a storage layer to run
    against; this one follows the storage contract of the spec and can be
    made to fail through its environment. *)
Module Ref.

(** Handler error codes of my_base.h (not among the sources); only their
    being distinct and non-zero matters. *)
Definition HA_ERR_FOUND_DUPP_KEY : Z := 121.
Definition HA_ERR_INTERNAL_ERROR : Z := 122.
Definition HA_ERR_RECORD_FILE_FULL : Z := 135.

Inductive Representation := InMemoryStore | OnDiskStore.

(** A value of the select list: an integer, or a value that cannot be
    coerced into the column ([datum = None]); hidden items are not
    materialized. *)
Record item := mkItem {
  datum : option Z;
  item_hidden : bool
}.

Definition row := list Z.

Definition row_eq_dec : forall r1 r2 : row, {r1 = r2} + {r1 <> r2} :=
  list_eq_dec Z.eq_dec.

Definition mem (r : row) (rs : list row) : bool :=
  if in_dec row_eq_dec r rs then true else false.

(** What the surrounding server gives the storage layer: whether a table can
    be allocated, how many rows the in-memory representation takes, whether a
    promotion to disk can succeed, how many rows the disk takes (no bound
    when [None]), and whether emptying a table succeeds. *)
Record env := mkEnv {
  alloc_ok : bool;
  tmp_table_size : nat;
  disk_ok : bool;
  disk_quota : option nat;
  truncate_ok : bool
}.

(** Modelled from the spec: the RowStore of section 3 behind the handler
    (sql/handler.h is not among the sources): the rows in insertion order,
    the representation, whether a native unique key covers the columns,
    whether storage was allocated, whether duplicate-key errors are to be
    ignored, and whether the index is initialized for lookups. *)
Record store := mkStore {
  columns : nat;
  rows : list row;
  representation : Representation;
  native_key : bool;
  created : bool;
  ignore_dup_key : bool;
  index_inited : bool
}.

Definition tbl := TABLE row store.

Definition with_rows (h : store) (rs : list row) : store :=
  {| columns := columns h; rows := rs; representation := representation h;
     native_key := native_key h; created := created h;
     ignore_dup_key := ignore_dup_key h; index_inited := index_inited h |}.

Definition quota_allows (e : env) (n : nat) : bool :=
  match disk_quota e with
  | None => true
  | Some q => (n <=? q)%nat
  end.

(** The representation cannot take one more row. *)
Definition full (e : env) (h : store) : bool :=
  match representation h with
  | InMemoryStore => (tmp_table_size e <=? List.length (rows h))%nat
  | OnDiskStore => negb (quota_allows e (Datatypes.S (List.length (rows h))))
  end.

(** Modelled from the spec: projection of the visible values into the row
    buffer (fill_record, sql/sql_base.cc, not among the sources).  Section
    4.3, step 1: a value that cannot be coerced into the store's column
    shape is a projection error; the buffer is then left as it was. *)
Fixpoint coerce (values : list item) : option row :=
  match values with
  | [] => Some []
  | v :: vs =>
      if item_hidden v then coerce vs
      else match datum v, coerce vs with
           | Some z, Some r => Some (z :: r)
           | _, _ => None
           end
  end.

Definition fill (t : tbl) (values : list item) : bool * row :=
  match coerce values with
  | Some r =>
      if (List.length r =? columns (file t))%nat then (false, r)
      else (true, record_0 t)
  | None => (true, record_0 t)
  end.

(** Modelled from the spec: the hash lookup of check_unique_constraint
    (section 4.3, step 2).  Without a hash field every row passes; with one,
    the row passes when the index does not find it, and an index that is not
    initialized finds nothing. *)
Definition check_unique (t : tbl) : bool * tbl :=
  if hash_field t
  then (if index_inited (file t)
        then negb (mem (record_0 t) (rows (file t)))
        else true, t)
  else (true, t).

(** Modelled from the spec: writeRow (section 4.3, step 3).  A native unique
    key rejects a row that is already stored; a representation that cannot
    take one more row reports capacity exceeded; otherwise the row is
    appended. *)
Definition write_row (e : env) (h : store) (r : row) : Z * store :=
  if negb (created h) then (HA_ERR_INTERNAL_ERROR, h)
  else if native_key h && mem r (rows h) then (HA_ERR_FOUND_DUPP_KEY, h)
  else if full e h then (HA_ERR_RECORD_FILE_FULL, h)
  else (0, with_rows h (rows h ++ [r])).

(** Modelled from the spec: "the configured duplicate-key class only, given
    ignore-duplicates was set at provisioning". *)
Definition ignorable (h : store) (error : Z) : bool :=
  ignore_dup_key h && (error =? HA_ERR_FOUND_DUPP_KEY).

Definition capacity_exceeded (error : Z) : bool :=
  error =? HA_ERR_RECORD_FILE_FULL.

(** Modelled from the spec: promotion migrates an in-memory representation
    to disk, "preserving all previously inserted rows and the uniqueness
    index's logical content"; the engine changed, so the index is not
    initialized any more (comment at line 129 of sql_intersect.cc).  A store
    that is already on disk has no further tier. *)
Definition promote_to_disk (e : env) (h : store) : option store :=
  match representation h with
  | InMemoryStore =>
      if disk_ok e
      then Some {| columns := columns h; rows := rows h;
                   representation := OnDiskStore;
                   native_key := native_key h; created := created h;
                   ignore_dup_key := ignore_dup_key h;
                   index_inited := false |}
      else None
  | OnDiskStore => None
  end.

Definition index_init (h : store) (idx : nat) (sorted : bool) : store :=
  {| columns := columns h; rows := rows h;
     representation := representation h;
     native_key := native_key h; created := created h;
     ignore_dup_key := ignore_dup_key h; index_inited := true |}.

Definition extra (h : store) (op : ha_extra_function) : store :=
  match op with
  | HA_EXTRA_IGNORE_DUP_KEY =>
      {| columns := columns h; rows := rows h;
         representation := representation h;
         native_key := native_key h; created := created h;
         ignore_dup_key := true; index_inited := index_inited h |}
  end.

(** Modelled from the spec: emptyContents (section 4.4) removes the rows and
    keeps "schema [and] uniqueness mechanism"; a table without allocated
    storage has nothing to empty. *)
Definition empty (e : env) (t : tbl) : bool * tbl :=
  if negb (created (file t)) then (false, t)
  else if truncate_ok e
       then (false,
             {| file := with_rows (file t) []; record_0 := record_0 t;
                hash_field := hash_field t |})
       else (true, t).

Definition uses_native_key (d : DeduplicationDecision) : bool :=
  match d with NativeUniqueKey => true | _ => false end.

Definition uses_hash_field (d : DeduplicationDecision) : bool :=
  match d with HashPseudoKey => true | _ => false end.

(** Modelled from the spec: provisioning of the store (create_tmp_table,
    section 4.1): one column per visible field, no rows, in memory, the
    uniqueness mechanism resolved by [decision], storage allocated unless
    skip_create_table; [None] is the allocation failure. *)
Definition create (e : env) (p : Temp_table_param) (fields : list item)
                  (distinct : bool) (options : Z) (alias : string)
  : option tbl :=
  if alloc_ok e
  then Some
         {| file :=
              {| columns := List.length fields; rows := [];
                 representation := InMemoryStore;
                 native_key := uses_native_key (decision distinct p);
                 created := negb (skip_create_table p);
                 ignore_dup_key := false;
                 index_inited := false |};
            record_0 := [];
            hash_field := uses_hash_field (decision distinct p) |}
  else None.

Definition storage (e : env) : Storage :=
  {| Item := item;
     Row := row;
     handler := store;
     hidden := item_hidden;
     count_field_types :=
       fun fields => mkField_counts (List.length fields) 0 0;
     create_tmp_table := create e;
     fill_record := fill;
     check_unique_constraint := check_unique;
     ha_write_row := write_row e;
     is_ignorable_error := ignorable;
     is_capacity_exceeded := capacity_exceeded;
     promote := promote_to_disk e;
     ha_index_init := index_init;
     ha_extra := extra;
     empty_result_table := empty e |}.

(** Integer values of a row of the select list. *)
Definition ints (zs : list Z) : list item :=
  map (fun z => mkItem (Some z) false) zs.

(** A sink prepared for the query expression [u] and provisioned with a
    physical table for the column types [cols]. *)
Definition provision (e : env) (u : Query_expression) (cols : list item)
                     (distinct : bool)
  : M (S := storage e) bool :=
  bind (prepare (S := storage e) u)
       (fun _ => create_result_table (S := storage e)
                   cols distinct 0 EmptyString false true).

(** An episode: provisioning, then the rows. *)
Definition episode (e : env) (u : Query_expression) (cols : list item)
                   (distinct : bool) (values : list (list item))
  : M (S := storage e) (list Outcome) :=
  bind (provision e u cols distinct)
       (fun _ => insert_all (S := storage e) values).

(** The table of a provisioned sink: storage allocated, duplicate-key errors
    ignored, the hash index (if any) initialized; [cols], [nk] and [hf] are
    the schema and the uniqueness mechanism, [rs] the stored rows, [rep] the
    representation.  An in-memory representation never holds more rows than
    tmp_table_size. *)
Definition holds (e : env) (cols : nat) (nk hf : bool)
                 (s : Query_result_intersect (S := storage e))
                 (rs : list row) (rep : Representation) : Prop :=
  exists (buf : row) (ii : bool),
    table (S := storage e) s = Some
      {| file :=
           {| columns := cols; rows := rs; representation := rep;
              native_key := nk; created := true; ignore_dup_key := true;
              index_inited := ii |};
         record_0 := buf;
         hash_field := hf |}
    /\ (hf = true -> ii = true)
    /\ (rep = InMemoryStore -> (List.length rs <= tmp_table_size e)%nat).

(** The store can take one more row when it holds [n]: directly, or after a
    promotion to disk. *)
Definition room (e : env) (rep : Representation) (n : nat) : bool :=
  match rep with
  | InMemoryStore =>
      (n <? tmp_table_size e)%nat
      || (disk_ok e && quota_allows e (Datatypes.S n))
  | OnDiskStore => quota_allows e (Datatypes.S n)
  end.

(** A store in representation [rep] can grow to [n] rows. *)
Definition capacity (e : env) (rep : Representation) (n : nat) : bool :=
  match rep with
  | InMemoryStore =>
      (n <=? tmp_table_size e)%nat || (disk_ok e && quota_allows e n)
  | OnDiskStore => quota_allows e n
  end.

(** The representation of a store that started in [rep] and holds [n]
    rows. *)
Definition representation_at (e : env) (rep : Representation) (n : nat)
  : Representation :=
  match rep with
  | InMemoryStore =>
      if (n <=? tmp_table_size e)%nat then InMemoryStore else OnDiskStore
  | OnDiskStore => OnDiskStore
  end.

(** The promotions between two representations of one store. *)
Definition promotions (rep rep' : Representation) : nat :=
  match rep, rep' with
  | InMemoryStore, OnDiskStore => 1
  | _, _ => 0
  end.

(** The values [vs] project to the rows [rs] of [cols] columns. *)
Definition project_all (cols : nat) (vs : list (list item)) (rs : list row)
  : Prop :=
  Forall2 (fun v r => coerce v = Some r /\ List.length r = cols) vs rs.

(** The representation after one more row was stored. *)
Definition next_representation (e : env) (rep : Representation) (n : nat)
  : Representation :=
  match rep with
  | InMemoryStore =>
      if (n <? tmp_table_size e)%nat then InMemoryStore else OnDiskStore
  | OnDiskStore => OnDiskStore
  end.

(** An environment without faults: memory for [n] rows, an unbounded disk. *)
Definition plain_env (n : nat) : env :=
  {| alloc_ok := true; tmp_table_size := n; disk_ok := true;
     disk_quota := None; truncate_ok := true |}.

(** An environment that is out of space everywhere: no row fits in memory
    and none on disk, so that a write reports capacity exceeded before and
    after the promotion. *)
Definition cramped_env : env :=
  {| alloc_ok := true; tmp_table_size := 0; disk_ok := true;
     disk_quota := Some 0%nat; truncate_ok := true |}.

(** An environment whose tables cannot be emptied. *)
Definition stuck_env : env :=
  {| alloc_ok := true; tmp_table_size := 4; disk_ok := true;
     disk_quota := None; truncate_ok := false |}.

(** A two-column table with a native unique key, as provisioning leaves
    it, holding the rows [rs]. *)
Definition sample_store (rs : list row) (rep : Representation) : store :=
  {| columns := 2; rows := rs; representation := rep; native_key := true;
     created := true; ignore_dup_key := true; index_inited := false |}.

Definition sample_table (rs : list row) (rep : Representation) : tbl :=
  {| file := sample_store rs rep; record_0 := []; hash_field := false |}.

(** A sink in the middle of its life: prepared, provisioned, counting [n]
    rows. *)
Definition sample_sink (e : env) (n : Z) (t : tbl)
  : Query_result_intersect (S := storage e) :=
  mkSink (S := storage e) (Some (mkQuery_expression false false))
         Temp_table_param_default n (Some t).

End Ref.

(** ** Sequences of calls and what they count *)

(** A write that the handler accepted. *)
Definition is_ok_write (c : Call) : bool :=
  match c with
  | Call_ha_write_row error => error =? 0
  | _ => false
  end.

Definition is_inserted (o : Outcome) : bool :=
  match o with
  | Inserted => true
  | _ => false
  end.

(** The methods called one after the other on the same object; an abort
    ends the sequence. *)
Fixpoint invoke_all {S : Storage} (ms : list Method) : M (list bool) :=
  match ms with
  | [] => ret []
  | m :: rest =>
      bind (invoke m)
           (fun b => bind (invoke_all rest) (fun bs => ret (b :: bs)))
  end.

(** * Properties *)

Ltac run :=
  cbv [send_data create_result_table reset cleanup prepare insert
       create_ondisk_from_heap classifyError do_fill_record do_check_unique_constraint
       do_ha_write_row do_is_ignorable_error do_ha_index_init do_ha_extra
       do_promote deref_table get_table get_unit set_table set_rows
       set_unit set_tmp_table_param incr_rows tell ret abort when bind
       exec result_of calls_of row_count send_eof flush postponed_prepare
       invoke put_table put_rows];
  cbn [table m_rows_in_table unit_ tmp_table_param fst snd app
       file record_0 hash_field set_file set_record_0 negb Z.eqb].

Ltac run_with :=
  repeat (run;
          match goal with
          | H : ?x = _ |- context [?x] => rewrite H
          end);
  run.

Section SinkFacts.
Context {S : Storage}.

(** send_data returns (it does not abort) whenever a table is attached, and
    the table stays attached. *)
Lemma send_data_returns (values : list Item) (s : Query_result_intersect)
                        (t : Table) :
  table s = Some t ->
  exists b s' l t',
    send_data values s = (Ret b, s', l) /\ table s' = Some t'.
Proof.
  intros Ht. run. rewrite Ht.
  destruct (fill_record t values) as [err r]. run.
  destruct err; run; [do 4 eexists; split; reflexivity|].
  destruct (check_unique_constraint (set_record_0 t r)) as [u t2]. run.
  destruct u; run; [|do 4 eexists; split; reflexivity].
  destruct (ha_write_row (file t2) (record_0 t2)) as [e h]. run.
  destruct (e =? 0); run; [do 4 eexists; split; reflexivity|].
  destruct (is_ignorable_error h e) eqn:Hi; run; rewrite ?Hi; run;
    [do 4 eexists; split; reflexivity|].
  destruct (is_capacity_exceeded e); run;
    [|do 4 eexists; split; reflexivity].
  destruct (promote h) as [h4|]; run; [|do 4 eexists; split; reflexivity].
  destruct (ha_write_row h4 (record_0 t2)) as [e2 h5]. run.
  destruct (e2 =? 0); run; [|do 4 eexists; split; reflexivity].
  destruct (hash_field t2); run; do 4 eexists; split; reflexivity.
Qed.

(** Step 2 of section 4.3: a row that check_unique_constraint finds in the
    table is dropped without a write; the call succeeds and the counter
    stays. *)
Lemma send_data_duplicate_by_check
        (values : list Item) (s : Query_result_intersect)
        (t t2 : Table) (r : Row) :
  table s = Some t ->
  fill_record t values = (false, r) ->
  check_unique_constraint (set_record_0 t r) = (false, t2) ->
  send_data values s =
    (Ret false, put_table s (Some t2),
     [Call_fill_record; Call_check_unique_constraint])
  /\ insert values s =
       (Ret DuplicateRejected, put_table s (Some t2),
        [Call_fill_record; Call_check_unique_constraint]).
Proof.
  intros Ht Hf Hc. run. rewrite Ht. run. rewrite Hf. run. rewrite Hc. run.
  unfold outcome. cbn. rewrite Z.eqb_refl. split; reflexivity.
Qed.

(** A successful write: the counter moves by one, modulo 2^64. *)
Lemma send_data_inserted
        (values : list Item) (s : Query_result_intersect)
        (t t2 : Table) (r : Row) (h : handler) :
  table s = Some t ->
  fill_record t values = (false, r) ->
  check_unique_constraint (set_record_0 t r) = (true, t2) ->
  ha_write_row (file t2) (record_0 t2) = (0, h) ->
  send_data values s =
    (Ret false,
     put_rows (put_table s (Some (set_file t2 h)))
              (ha_rows_incr (m_rows_in_table s)),
     [Call_fill_record; Call_check_unique_constraint; Call_ha_write_row 0]).
Proof.
  intros Ht Hf Hc Hw. run. rewrite Ht. run. rewrite Hf. run. rewrite Hc. run.
  rewrite Hw. run. reflexivity.
Qed.

(** A write rejected with an ignorable error: the call succeeds, the counter
    stays, nothing is promoted. *)
Lemma send_data_ignored
        (values : list Item) (s : Query_result_intersect)
        (t t2 : Table) (r : Row) (error : Z) (h : handler) :
  table s = Some t ->
  fill_record t values = (false, r) ->
  check_unique_constraint (set_record_0 t r) = (true, t2) ->
  ha_write_row (file t2) (record_0 t2) = (error, h) ->
  error <> 0 ->
  is_ignorable_error h error = true ->
  send_data values s =
    (Ret false, put_table s (Some (set_file t2 h)),
     [Call_fill_record; Call_check_unique_constraint;
      Call_ha_write_row error]).
Proof.
  intros Ht Hf Hc Hw He Hi. apply Z.eqb_neq in He.
  run_with. reflexivity.
Qed.

(** C8. When fill_record reports an error, send_data returns true at once:
    the only call made is fill_record (no uniqueness check, no write), the
    row count is unchanged and so are the handler and the rest of the
    object, the outcome is Failure(ProjectionError), and the object accepts
    the next row: every later send_data returns. *)
Theorem send_data_projection_error
          (values : list Item) (s : Query_result_intersect)
          (t : Table) (r : Row) :
  table s = Some t ->
  fill_record t values = (true, r) ->
  send_data values s =
    (Ret true, put_table s (Some (set_record_0 t r)), [Call_fill_record])
  /\ insert values s =
       (Ret (Failure ProjectionError),
        put_table s (Some (set_record_0 t r)), [Call_fill_record])
  /\ count_calls is_check (calls_of (send_data values) s) = 0%nat
  /\ count_calls is_write (calls_of (send_data values) s) = 0%nat
  /\ row_count (exec (send_data values) s) = row_count s
  /\ (forall next : list Item,
        exists b s' l,
          send_data next (exec (send_data values) s) = (Ret b, s', l)).
Proof.
  intros Ht Hf.
  assert (E : send_data values s =
              (Ret true, put_table s (Some (set_record_0 t r)),
               [Call_fill_record])).
  { run. rewrite Ht. run. rewrite Hf. run. reflexivity. }
  split; [exact E|].
  split; [unfold insert; rewrite E; reflexivity|].
  unfold calls_of, exec, row_count. rewrite E. cbn.
  repeat split.
  intros next.
  destruct (send_data_returns next (put_table s (Some (set_record_0 t r)))
              (set_record_0 t r) eq_refl)
    as (b & s' & l & t' & Hs & _).
  exists b, s', l. exact Hs.
Qed.

(** C3. A write that fails with an error the handler classifies as
    ignorable makes send_data return false, like a duplicate found by the
    uniqueness check: the row count is unchanged, no promotion is attempted,
    the outcome is DuplicateRejected.  And provisioning with a physical
    table tells the handler HA_EXTRA_IGNORE_DUP_KEY before any row is
    written. *)
Theorem send_data_ignorable_error :
  (forall (values : list Item) (s : Query_result_intersect)
          (t t2 : Table) (r : Row) (error : Z) (h : handler),
      table s = Some t ->
      fill_record t values = (false, r) ->
      check_unique_constraint (set_record_0 t r) = (true, t2) ->
      ha_write_row (file t2) (record_0 t2) = (error, h) ->
      error <> 0 ->
      is_ignorable_error h error = true ->
      send_data values s =
        (Ret false, put_table s (Some (set_file t2 h)),
         [Call_fill_record; Call_check_unique_constraint;
          Call_ha_write_row error])
      /\ insert values s =
           (Ret DuplicateRejected, put_table s (Some (set_file t2 h)),
            [Call_fill_record; Call_check_unique_constraint;
             Call_ha_write_row error])
      /\ row_count (exec (send_data values) s) = row_count s
      /\ count_calls is_promote (calls_of (send_data values) s) = 0%nat)
  /\
  (forall (column_types : list Item) (distinct : bool) (options : Z)
          (alias : string) (bits : bool) (s : Query_result_intersect)
          (t0 : Table),
      table s = None ->
      create_tmp_table
        (provisioning_param (unit_ s) (VisibleFields column_types) bits true)
        (VisibleFields column_types) distinct options alias = Some t0 ->
      result_of (create_result_table column_types distinct options alias
                                     bits true) s = Ret false
      /\ In (Call_ha_extra HA_EXTRA_IGNORE_DUP_KEY)
            (calls_of (create_result_table column_types distinct options
                                           alias bits true) s)
      /\ exists t1,
           table (exec (create_result_table column_types distinct options
                                            alias bits true) s) = Some t1
           /\ hash_field t1 = hash_field t0
           /\ file t1 =
               let h := ha_extra (file t0) HA_EXTRA_IGNORE_DUP_KEY in
               if hash_field t0 then ha_index_init h 0 false else h).
Proof.
  split.
  - intros values s t t2 r error h Ht Hf Hc Hw He Hi.
    pose proof (send_data_ignored _ _ _ _ _ _ _ Ht Hf Hc Hw He Hi) as E.
    split; [exact E|].
    split.
    { unfold insert. rewrite E. unfold outcome. cbn.
      rewrite Z.eqb_refl. reflexivity. }
    unfold calls_of, exec, row_count. rewrite E. cbn. split; reflexivity.
  - intros column_types distinct options alias bits s t0 Ht.
    intros Hc. run. rewrite Ht. run. rewrite Hc. run.
    destruct (hash_field t0) eqn:Hh; run.
    + split; [reflexivity|]. split; [cbn; auto|].
      eexists. split; [reflexivity|]. cbn. rewrite Hh. auto.
    + split; [reflexivity|]. split; [cbn; auto|].
      eexists. split; [reflexivity|]. cbn. rewrite Hh. auto.
Qed.

(** C9. reset on a sink whose physical table was never allocated returns
    false (no error) and leaves the row count at zero.  Before provisioning,
    and after a provisioning that failed, the table pointer is null: reset
    then makes no call to the storage layer, for every storage layer; the
    constructor builds such an object.  After a provisioning with
    create_table = false the sink holds a table without storage: over the
    reference storage reset asks it to empty itself, which finds nothing to
    empty, and the table is left as it was. *)
Theorem reset_without_table :
  (forall s : Query_result_intersect,
      table s = None ->
      reset s = (Ret false, put_rows s 0, [])
      /\ row_count (exec reset s) = 0)
  /\ table Query_result_intersect_new = None
  /\ reset Query_result_intersect_new =
       (Ret false, Query_result_intersect_new, [])
  /\ (forall (e : Ref.env)
             (s : Query_result_intersect (S := Ref.storage e))
             (t : Ref.tbl),
         table s = Some t ->
         Ref.created (file t) = false ->
         reset (S := Ref.storage e) s =
           (Ret false, put_table (put_rows s 0) (Some t),
            [Call_empty_result_table])
         /\ row_count (exec (reset (S := Ref.storage e)) s) = 0)
  /\ (forall (e : Ref.env)
             (s : Query_result_intersect (S := Ref.storage e))
             (column_types : list Ref.item) (d : bool) (options : Z)
             (alias : string) (bits : bool),
         table s = None ->
         Ref.alloc_ok e = true ->
         let s1 := exec (create_result_table (S := Ref.storage e)
                           column_types d options alias bits false) s in
         result_of (create_result_table (S := Ref.storage e)
                      column_types d options alias bits false) s = Ret false
         /\ result_of (reset (S := Ref.storage e)) s1 = Ret false
         /\ row_count (exec (reset (S := Ref.storage e)) s1) = 0
         /\ table (exec (reset (S := Ref.storage e)) s1) = table s1).
Proof.
  split; [|split; [|split; [|split]]].
  - intros s Ht. run. rewrite Ht. run. split; reflexivity.
  - reflexivity.
  - reflexivity.
  - intros e s t Ht Hc.
    destruct t as [[c rws rp nkey cr ig ix] buf hfld].
    cbn in Hc. subst cr.
    run. rewrite Ht. run. cbn. split; reflexivity.
  - intros e s column_types d options alias bits Ht Ha s1. subst s1.
    run. rewrite Ht. run. cbn. unfold Ref.create. rewrite Ha.
    assert (Hskip :
      skip_create_table
        (provisioning_param (S := Ref.storage e) (unit_ s)
           (VisibleFields (S := Ref.storage e) column_types) bits false) =
      true).
    { unfold provisioning_param, shape_flags.
      destruct (unit_ s) as [[[|] [|]]|]; reflexivity. }
    cbn. unfold Ref.empty. cbn. rewrite Hskip. cbn.
    repeat split; reflexivity.
Qed.

(** reset never aborts, and reports an error only when
    empty_result_table does. *)
Lemma reset_spec (s : Query_result_intersect) :
  reset s =
    match table s with
    | None => (Ret false, put_rows s 0, [])
    | Some t =>
        (Ret (fst (empty_result_table t)),
         put_table (put_rows s 0) (Some (snd (empty_result_table t))),
         [Call_empty_result_table])
    end.
Proof.
  run. destruct (table s) as [t|]; run; [|reflexivity].
  destruct (empty_result_table t) as [err t']. run. reflexivity.
Qed.

(** C7. cleanup runs reset and drops its result: for every object it
    returns normally with no value, also when reset reports an error; the
    object and the calls made are those of reset. *)
Theorem cleanup_discards_reset_failure (s : Query_result_intersect) :
  cleanup s = (Ret tt, exec reset s, calls_of reset s)
  /\ (exists failed : bool, result_of reset s = Ret failed)
  /\ (forall t : Table,
        table s = Some t ->
        fst (empty_result_table t) = true ->
        result_of reset s = Ret true /\ result_of cleanup s = Ret tt).
Proof.
  unfold cleanup, bind, exec, calls_of, result_of.
  rewrite reset_spec.
  destruct (table s) as [t|]; cbn.
  - split; [reflexivity|].
    split; [eexists; reflexivity|].
    intros t' Ht' Hf. inversion Ht'; subst. rewrite Hf. split; reflexivity.
  - split; [reflexivity|]. split; [eexists; reflexivity|].
    intros t' Ht'. discriminate.
Qed.

(** The promotion path when everything succeeds. *)
Lemma send_data_promoted
        (values : list Item) (s : Query_result_intersect)
        (t t2 : Table) (r : Row) (error : Z) (h h4 h5 : handler) :
  table s = Some t ->
  fill_record t values = (false, r) ->
  check_unique_constraint (set_record_0 t r) = (true, t2) ->
  ha_write_row (file t2) (record_0 t2) = (error, h) ->
  error <> 0 ->
  is_ignorable_error h error = false ->
  is_capacity_exceeded error = true ->
  promote h = Some h4 ->
  ha_write_row h4 (record_0 t2) = (0, h5) ->
  send_data values s =
    (Ret false,
     put_rows
       (put_table s
          (Some (if hash_field t2
                 then set_file t2 (ha_index_init h5 0 false)
                 else set_file t2 h5)))
       (ha_rows_incr (m_rows_in_table s)),
     [Call_fill_record; Call_check_unique_constraint;
      Call_ha_write_row error; Call_promote; Call_ha_write_row 0]
     ++ (if hash_field t2 then [Call_ha_index_init] else [])).
Proof.
  intros Ht Hf Hc Hw He Hi Hcap Hp Hw2.
  apply Z.eqb_neq in He.
  run_with. destruct (hash_field t2); run; reflexivity.
Qed.

(** Whatever the storage layer answers, one call of send_data promotes at
    most once and writes at most twice. *)
Lemma send_data_call_bounds (values : list Item)
                            (s : Query_result_intersect) :
  (count_calls is_promote (calls_of (send_data values) s) <= 1)%nat
  /\ (count_calls is_write (calls_of (send_data values) s) <= 2)%nat.
Proof.
  unfold count_calls. run.
  destruct (table s) as [t|]; run; [|cbn; lia].
  destruct (fill_record t values) as [err r]. run.
  destruct err; run; [cbn; lia|].
  destruct (check_unique_constraint (set_record_0 t r)) as [u t2]. run.
  destruct u; run; [|cbn; lia].
  destruct (ha_write_row (file t2) (record_0 t2)) as [e h]. run.
  destruct (e =? 0); run; [cbn; lia|].
  destruct (is_ignorable_error h e) eqn:Hi; run; rewrite ?Hi; run;
    [cbn; lia|].
  destruct (is_capacity_exceeded e); run; [|cbn; lia].
  destruct (promote h) as [h4|]; run; [|cbn; lia].
  destruct (ha_write_row h4 (record_0 t2)) as [e2 h5]. run.
  destruct (e2 =? 0); run; [|cbn; lia].
  destruct (hash_field t2); run; cbn; lia.
Qed.

(** C4. A write that fails with a capacity-exceeded error leads to exactly
    one promotion.  If the promotion fails, send_data returns true after it,
    without a second write.  If it succeeds, the write is retried once on
    the promoted handler: a retry that fails makes send_data return true
    with the row count unchanged, a retry that succeeds counts the row (and
    re-initializes the index of a table with a hash field).  In no case does
    send_data promote more than once or write more than twice; the outcome
    of both failures is Failure(StorageFatal). *)
Theorem send_data_promotes_once
          (values : list Item) (s : Query_result_intersect)
          (t t2 : Table) (r : Row) (error : Z) (h : handler) :
  table s = Some t ->
  fill_record t values = (false, r) ->
  check_unique_constraint (set_record_0 t r) = (true, t2) ->
  ha_write_row (file t2) (record_0 t2) = (error, h) ->
  error <> 0 ->
  is_ignorable_error h error = false ->
  is_capacity_exceeded error = true ->
  count_calls is_promote (calls_of (send_data values) s) = 1%nat
  /\ (count_calls is_write (calls_of (send_data values) s) <= 2)%nat
  /\ (forall (next : list Item) (s1 : Query_result_intersect),
        (count_calls is_promote (calls_of (send_data next) s1) <= 1)%nat)
  /\ match promote h with
     | None =>
         send_data values s =
           (Ret true, put_table s (Some (set_file t2 h)),
            [Call_fill_record; Call_check_unique_constraint;
             Call_ha_write_row error; Call_promote])
         /\ result_of (insert values) s = Ret (Failure StorageFatal)
     | Some h4 =>
         let '(retry_error, h5) := ha_write_row h4 (record_0 t2) in
         if retry_error =? 0
         then
           send_data values s =
             (Ret false,
              put_rows
                (put_table s
                   (Some (if hash_field t2
                          then set_file t2 (ha_index_init h5 0 false)
                          else set_file t2 h5)))
                (ha_rows_incr (m_rows_in_table s)),
              [Call_fill_record; Call_check_unique_constraint;
               Call_ha_write_row error; Call_promote; Call_ha_write_row 0]
              ++ (if hash_field t2 then [Call_ha_index_init] else []))
         else
           send_data values s =
             (Ret true, put_table s (Some (set_file t2 h5)),
              [Call_fill_record; Call_check_unique_constraint;
               Call_ha_write_row error; Call_promote;
               Call_ha_write_row retry_error])
           /\ result_of (insert values) s = Ret (Failure StorageFatal)
           /\ row_count (exec (send_data values) s) = row_count s
     end.
Proof.
  intros Ht Hf Hc Hw He Hi Hcap.
  apply Z.eqb_neq in He.
  split; [|split; [apply send_data_call_bounds|
           split; [intros; apply send_data_call_bounds|]]].
  - unfold count_calls. run_with.
    destruct (promote h) as [h4|]; run; [|reflexivity].
    destruct (ha_write_row h4 (record_0 t2)) as [e2 h5]. run.
    destruct (e2 =? 0); run; [|reflexivity].
    destruct (hash_field t2); run; reflexivity.
  - destruct (promote h) as [h4|] eqn:Hp.
    + destruct (ha_write_row h4 (record_0 t2)) as [e2 h5] eqn:Hw2.
      destruct (e2 =? 0) eqn:He2.
      * apply Z.eqb_eq in He2. subst e2.
        run_with. destruct (hash_field t2); run; reflexivity.
      * assert (E : send_data values s =
                    (Ret true, put_table s (Some (set_file t2 h5)),
                     [Call_fill_record; Call_check_unique_constraint;
                      Call_ha_write_row error; Call_promote;
                      Call_ha_write_row e2])).
        { run_with. reflexivity. }
        split; [exact E|].
        unfold result_of, insert, exec, row_count. rewrite E.
        split; reflexivity.
    + assert (E : send_data values s =
                  (Ret true, put_table s (Some (set_file t2 h)),
                   [Call_fill_record; Call_check_unique_constraint;
                    Call_ha_write_row error; Call_promote])).
      { run_with. reflexivity. }
      split; [exact E|].
      unfold result_of, insert. rewrite E. reflexivity.
Qed.

(** C2. The decision is the function of the three booleans given by the
    table of section 4.2, and it is what create_result_table asks of
    create_tmp_table: the parameter object of the call is rebuilt from
    [Temp_table_param()] and the query expression, so neither the previous
    parameter object nor the row count of the sink enters it: two sinks that
    differ in these only make the same calls and get the same table. *)
Theorem select_is_pure :
  (forall d r m : bool,
      select d r m =
        if negb d then NoDeduplication
        else if r || m then HashPseudoKey
        else NativeUniqueKey)
  /\
  (forall (s : Query_result_intersect) (column_types : list Item)
          (d : bool) (options : Z) (alias : string) (bits create : bool),
      table s = None ->
      let p := provisioning_param (unit_ s) (VisibleFields column_types)
                                  bits create in
      (exists rest,
          calls_of (create_result_table column_types d options alias bits
                                        create) s =
            Call_create_tmp_table p d :: rest)
      /\ decision d p =
           match unit_ s with
           | Some u =>
               select d (is_recursive u) (mixed_intersect_operators u)
           | None => select d false false
           end
      /\ forall (p' : Temp_table_param) (n : Z),
           let s' := mkSink (unit_ s) p' n None in
           calls_of (create_result_table column_types d options alias bits
                                         create) s' =
             calls_of (create_result_table column_types d options alias bits
                                           create) s
           /\ result_of (create_result_table column_types d options alias
                                             bits create) s' =
                result_of (create_result_table column_types d options alias
                                               bits create) s
           /\ table (exec (create_result_table column_types d options alias
                                               bits create) s') =
                table (exec (create_result_table column_types d options alias
                                                 bits create) s)).
Proof.
  split.
  - intros [|] [|] [|]; reflexivity.
  - intros s column_types d options alias bits create Ht p.
    split; [|split].
    + run. rewrite Ht. run.
      destruct (create_tmp_table _ _ _ _ _) as [t0|]; run;
        [|eexists; reflexivity].
      destruct create; run; [|eexists; reflexivity].
      destruct (hash_field t0); run; eexists; reflexivity.
    + subst p. unfold provisioning_param, select, decision, shape_flags.
      destruct (unit_ s) as [[[|] [|]]|]; destruct d; reflexivity.
    + intros p' n s'. subst s'. run. rewrite Ht. run.
      destruct (create_tmp_table _ _ _ _ _) as [t0|]; run;
        [|repeat split; reflexivity].
      destruct create; run; [|repeat split; reflexivity].
      destruct (hash_field t0); run; repeat split; reflexivity.
Qed.

(** C10. The assertion [table == nullptr] of create_result_table holds on
    every object with a null table, and these are the objects on which no
    provisioning has succeeded; on an object with a table the call aborts
    on the assertion before touching anything, and a successful provisioning
    leaves a table attached, so that calling it again aborts. *)
Theorem create_result_table_assertion :
  (forall (s : Query_result_intersect) (column_types : list Item)
          (d : bool) (options : Z) (alias : string) (bits create : bool),
      table s = None ->
      exists failed : bool,
        result_of (create_result_table column_types d options alias bits
                                       create) s = Ret failed)
  /\ (forall s : Query_result_intersect, unprovisioned s -> table s = None)
  /\ (forall (s : Query_result_intersect) (column_types : list Item)
             (d : bool) (options : Z) (alias : string) (bits create : bool),
         table s <> None ->
         create_result_table column_types d options alias bits create s =
           (Abort AssertionFailed, s, []))
  /\ (forall (s s' : Query_result_intersect) (l : list Call)
             (column_types : list Item) (d : bool) (options : Z)
             (alias : string) (bits create : bool),
         create_result_table column_types d options alias bits create s =
           (Ret false, s', l) ->
         table s' <> None
         /\ forall (column_types' : list Item) (d' : bool) (options' : Z)
                   (alias' : string) (bits' create' : bool),
             create_result_table column_types' d' options' alias' bits'
                                 create' s' =
               (Abort AssertionFailed, s', [])).
Proof.
  assert (Hsafe :
    forall (s : Query_result_intersect) (column_types : list Item)
           (d : bool) (options : Z) (alias : string) (bits create : bool),
      table s = None ->
      exists failed s',
        fst (create_result_table column_types d options alias bits create s)
          = (Ret failed, s')
        /\ (failed = true -> table s' = None)
        /\ (failed = false -> table s' <> None)).
  { intros s column_types d options alias bits create Ht.
    run. rewrite Ht. run.
    destruct (create_tmp_table _ _ _ _ _) as [t0|]; run.
    - destruct create; run.
      + destruct (hash_field t0); run;
          (do 2 eexists; split; [reflexivity|split; cbn; intros; first [reflexivity|congruence]]).
      + do 2 eexists; split; [reflexivity|split; cbn; intros; first [reflexivity|congruence]].
    - do 2 eexists; split; [reflexivity|split; cbn; intros; first [reflexivity|congruence]]. }
  assert (Habort :
    forall (s : Query_result_intersect) (column_types : list Item)
           (d : bool) (options : Z) (alias : string) (bits create : bool),
      table s <> None ->
      create_result_table column_types d options alias bits create s =
        (Abort AssertionFailed, s, [])).
  { intros s column_types d options alias bits create Ht.
    run. destruct (table s); [reflexivity|congruence]. }
  split; [|split; [|split]].
  - intros s column_types d options alias bits create Ht.
    destruct (Hsafe s column_types d options alias bits create Ht)
      as (failed & s' & E & _).
    exists failed. unfold result_of. rewrite E. reflexivity.
  - intros s Hs. induction Hs as [|s s' m b l Hs IH Hm Hb]; [reflexivity|].
    destruct m; cbn [invoke is_provisioning] in Hm, Hb.
    + revert Hm. run. intros Hm. inversion Hm; subst; cbn; first [exact IH|reflexivity].
    + revert Hm. run. intros Hm. inversion Hm; subst; cbn; first [exact IH|reflexivity].
    + revert Hm. run. rewrite IH. run. discriminate.
    + revert Hm. run. intros Hm. inversion Hm; subst; cbn; first [exact IH|reflexivity].
    + revert Hm. run. intros Hm. inversion Hm; subst; cbn; first [exact IH|reflexivity].
    + revert Hm. run. rewrite IH. run. intros Hm. inversion Hm; subst; cbn; first [exact IH|reflexivity].
    + revert Hm. run. rewrite IH. run. intros Hm. inversion Hm; subst; cbn; first [exact IH|reflexivity].
    + destruct (Hsafe s column_types is_intersect_distinct options
                  table_alias bit_fields_as_long_arg create_table IH)
        as (failed & s1 & E & Ht & _).
      rewrite Hm in E. cbn in E. inversion E; subst.
      apply Ht. apply Hb. reflexivity.
  - exact Habort.
  - intros s s' l column_types d options alias bits create E.
    assert (Hs' : table s' <> None).
    { destruct (table s) as [t|] eqn:Ht.
      - rewrite Habort in E by congruence. discriminate.
      - destruct (Hsafe s column_types d options alias bits create Ht)
          as (failed & s1 & E1 & _ & Hok).
        rewrite E in E1. cbn in E1. inversion E1; subst.
        apply Hok. reflexivity. }
    split; [exact Hs'|].
    intros. apply Habort. exact Hs'.
Qed.

End SinkFacts.

(** ** The sink over the reference storage *)

Lemma ha_rows_incr_neq (n : Z) : ha_rows_incr n <> n.
Proof.
  unfold ha_rows_incr, ha_rows_modulus.
  change (2 ^ 64) with 18446744073709551616. intros H.
  assert (B : 0 <= (n + 1) mod 18446744073709551616 < 18446744073709551616)
    by (apply Z.mod_pos_bound; lia).
  destruct (Z.eq_dec (n + 1) 18446744073709551616) as [E|E].
  - rewrite E, Z.mod_same in H by lia. lia.
  - rewrite Z.mod_small in H by lia. lia.
Qed.

Lemma ha_rows_incr_small (n : Z) :
  0 <= n -> n + 1 < ha_rows_modulus -> ha_rows_incr n = n + 1.
Proof.
  intros H0 H1. unfold ha_rows_incr. apply Z.mod_small. lia.
Qed.

Lemma outcome_inserted {S : Storage} (s s' : Query_result_intersect)
                       (l : list Call) :
  m_rows_in_table s' = ha_rows_incr (m_rows_in_table s) ->
  outcome s s' l false = Inserted.
Proof.
  intros H. unfold outcome. rewrite H.
  destruct (Z.eqb_spec (ha_rows_incr (m_rows_in_table s))
                       (m_rows_in_table s)) as [E|E];
    [exfalso; exact (ha_rows_incr_neq _ E)|reflexivity].
Qed.

Section RefFacts.
Import Ref.
Variable e : env.

Local Abbreviation sink := (Query_result_intersect (S := storage e)).

Lemma mem_false (r : row) (rs : list row) : ~ In r rs -> mem r rs = false.
Proof. intros H. unfold mem. destruct (in_dec row_eq_dec r rs); tauto. Qed.

Lemma mem_true (r : row) (rs : list row) : In r rs -> mem r rs = true.
Proof. intros H. unfold mem. destruct (in_dec row_eq_dec r rs); tauto. Qed.

(** A row that is not stored yet is retained, by a promotion if the memory
    is full. *)
Lemma insert_new (cols : nat) (nk hf : bool) (s : sink) (rs : list row)
                 (rep : Representation) (values : list item) (r : row) :
  holds e cols nk hf s rs rep ->
  coerce values = Some r ->
  List.length r = cols ->
  ~ In r rs ->
  room e rep (List.length rs) = true ->
  exists (s' : sink) (l : list Call),
    insert (S := storage e) values s = (Ret Inserted, s', l)
    /\ holds e cols nk hf s' (rs ++ [r])
             (next_representation e rep (List.length rs))
    /\ m_rows_in_table s' = ha_rows_incr (m_rows_in_table s)
    /\ count_calls is_promote l =
       promotions rep (next_representation e rep (List.length rs)).
Proof.
  intros (buf & ii & Ht & Hii & Hmem) Hco Hlen Hnew Hroom.
  apply mem_false in Hnew.
  set (t := {| file :=
                 {| columns := cols; rows := rs; representation := rep;
                    native_key := nk; created := true;
                    ignore_dup_key := true; index_inited := ii |};
               record_0 := buf; hash_field := hf |}) in *.
  assert (Hf : fill_record (Storage := storage e) t values = (false, r)).
  { cbn. unfold fill. rewrite Hco. cbn. rewrite Hlen, Nat.eqb_refl.
    reflexivity. }
  assert (Hc : check_unique_constraint (Storage := storage e)
                 (set_record_0 (S := storage e) t r) =
               (true, set_record_0 (S := storage e) t r)).
  { cbn. unfold check_unique. cbn. destruct hf; [|reflexivity].
    rewrite (Hii eq_refl), Hnew. reflexivity. }
  assert (Hfinish :
    forall (s' : sink) (l : list Call) (t' : tbl),
      send_data (S := storage e) values s =
        (Ret false,
         put_rows (put_table s (Some t')) (ha_rows_incr (m_rows_in_table s)),
         l) ->
      insert (S := storage e) values s =
        (Ret Inserted,
         put_rows (put_table s (Some t')) (ha_rows_incr (m_rows_in_table s)),
         l)).
  { intros s' l t' E. unfold insert. rewrite E.
    rewrite outcome_inserted by reflexivity. reflexivity. }
  destruct rep.
  - (* in memory *)
    cbn [room next_representation] in *.
    destruct (Nat.ltb_spec (List.length rs) (tmp_table_size e)) as [Hlt|Hge].
    + assert (Hw : ha_write_row (Storage := storage e)
                     (file (set_record_0 (S := storage e) t r))
                     (record_0 (set_record_0 (S := storage e) t r)) =
                   (0, with_rows (file t) (rs ++ [r]))).
      { cbn. unfold write_row, full. cbn. rewrite Hnew, andb_false_r.
        destruct (Nat.leb_spec (tmp_table_size e) (List.length rs));
          [lia|reflexivity]. }
      do 2 eexists. split.
      { apply (Hfinish s). exact (send_data_inserted _ _ _ _ _ _ Ht Hf Hc Hw). }
      split; [|split; [reflexivity|reflexivity]].
      exists r, ii. split; [reflexivity|]. split; [exact Hii|].
      intros _. rewrite length_app. cbn. lia.
    + cbn in Hroom. apply andb_prop in Hroom. destruct Hroom as [Hdisk Hq].
      set (h4 := {| columns := cols; rows := rs;
                    representation := OnDiskStore; native_key := nk;
                    created := true; ignore_dup_key := true;
                    index_inited := false |}).
      assert (Hw : ha_write_row (Storage := storage e)
                     (file (set_record_0 (S := storage e) t r))
                     (record_0 (set_record_0 (S := storage e) t r)) =
                   (HA_ERR_RECORD_FILE_FULL, file t)).
      { cbn. unfold write_row, full. cbn. rewrite Hnew, andb_false_r.
        destruct (Nat.leb_spec (tmp_table_size e) (List.length rs));
          [reflexivity|lia]. }
      assert (Hp : promote (Storage := storage e) (file t) = Some h4).
      { cbn. unfold promote_to_disk. cbn. rewrite Hdisk. reflexivity. }
      assert (Hw2 : ha_write_row (Storage := storage e) h4
                      (record_0 (set_record_0 (S := storage e) t r)) =
                    (0, with_rows h4 (rs ++ [r]))).
      { cbn. unfold write_row, full. cbn. rewrite Hnew, andb_false_r, Hq.
        reflexivity. }
      do 2 eexists. split.
      { apply (Hfinish s).
        refine (send_data_promoted _ _ _ _ _ _ _ _ _ Ht Hf Hc Hw _ _ _ Hp Hw2);
          [discriminate|reflexivity|reflexivity]. }
      split; [|split; [reflexivity|]].
      * cbn. destruct hf; cbn.
        -- exists r, true. split; [reflexivity|]. split; [reflexivity|].
           discriminate.
        -- exists r, false. split; [reflexivity|]. split; [discriminate|].
           discriminate.
      * cbn. destruct hf; reflexivity.
  - (* on disk *)
    cbn [room next_representation] in *.
    assert (Hw : ha_write_row (Storage := storage e)
                   (file (set_record_0 (S := storage e) t r))
                   (record_0 (set_record_0 (S := storage e) t r)) =
                 (0, with_rows (file t) (rs ++ [r]))).
    { cbn. unfold write_row, full. cbn. rewrite Hnew, andb_false_r, Hroom.
      reflexivity. }
    do 2 eexists. split.
    { apply (Hfinish s). exact (send_data_inserted _ _ _ _ _ _ Ht Hf Hc Hw). }
    split; [|split; [reflexivity|reflexivity]].
    exists r, ii. split; [reflexivity|]. split; [exact Hii|discriminate].
Qed.

(** A row that is already stored is rejected, by the hash lookup or by the
    native key. *)
Lemma insert_dup (cols : nat) (nk hf : bool) (s : sink) (rs : list row)
                 (rep : Representation) (values : list item) (r : row) :
  holds e cols nk hf s rs rep ->
  coerce values = Some r ->
  List.length r = cols ->
  In r rs ->
  nk || hf = true ->
  exists (s' : sink) (l : list Call),
    insert (S := storage e) values s = (Ret DuplicateRejected, s', l)
    /\ holds e cols nk hf s' rs rep
    /\ m_rows_in_table s' = m_rows_in_table s
    /\ count_calls is_promote l = 0%nat.
Proof.
  intros (buf & ii & Ht & Hii & Hmem) Hco Hlen Hin Hk.
  apply mem_true in Hin.
  set (t := {| file :=
                 {| columns := cols; rows := rs; representation := rep;
                    native_key := nk; created := true;
                    ignore_dup_key := true; index_inited := ii |};
               record_0 := buf; hash_field := hf |}) in *.
  assert (Hf : fill_record (Storage := storage e) t values = (false, r)).
  { cbn. unfold fill. rewrite Hco. cbn. rewrite Hlen, Nat.eqb_refl.
    reflexivity. }
  destruct hf.
  - assert (Hc : check_unique_constraint (Storage := storage e)
                   (set_record_0 (S := storage e) t r) =
                 (false, set_record_0 (S := storage e) t r)).
    { cbn. unfold check_unique. cbn. rewrite (Hii eq_refl), Hin.
      reflexivity. }
    destruct (send_data_duplicate_by_check _ _ _ _ _ Ht Hf Hc) as [_ E].
    do 2 eexists. split; [exact E|].
    split; [|split; reflexivity].
    exists r, ii. split; [reflexivity|]. split; assumption.
  - rewrite orb_false_r in Hk. subst nk.
    assert (Hc : check_unique_constraint (Storage := storage e)
                   (set_record_0 (S := storage e) t r) =
                 (true, set_record_0 (S := storage e) t r))
      by reflexivity.
    assert (Hw : ha_write_row (Storage := storage e)
                   (file (set_record_0 (S := storage e) t r))
                   (record_0 (set_record_0 (S := storage e) t r)) =
                 (HA_ERR_FOUND_DUPP_KEY, file t)).
    { cbn. unfold write_row. cbn. rewrite Hin. reflexivity. }
    assert (E : send_data (S := storage e) values s =
                (Ret false,
                 put_table s
                   (Some (set_file (S := storage e)
                            (set_record_0 (S := storage e) t r) (file t))),
                 [Call_fill_record; Call_check_unique_constraint;
                  Call_ha_write_row HA_ERR_FOUND_DUPP_KEY])).
    { refine (send_data_ignored _ _ _ _ _ _ _ Ht Hf Hc Hw _ _);
        [discriminate|reflexivity]. }
    do 2 eexists. split.
    { unfold insert. rewrite E. unfold outcome. cbn.
      rewrite Z.eqb_refl. reflexivity. }
    split; [|split; reflexivity].
    exists r, ii. split; [reflexivity|]. split; assumption.
Qed.

Lemma insert_all_cons (values : list item) (rest : list (list item))
                      (s s1 s2 : sink) (o : Outcome) (os : list Outcome)
                      (l1 l2 : list Call) :
  insert (S := storage e) values s = (Ret o, s1, l1) ->
  insert_all (S := storage e) rest s1 = (Ret os, s2, l2) ->
  insert_all (S := storage e) (values :: rest) s =
    (Ret (o :: os), s2, l1 ++ l2).
Proof.
  intros H1 H2. cbn [insert_all]. unfold bind at 1. rewrite H1.
  unfold bind. rewrite H2. unfold ret. rewrite app_nil_r. reflexivity.
Qed.

Lemma count_calls_app (p : Call -> bool) (l1 l2 : list Call) :
  count_calls p (l1 ++ l2) = (count_calls p l1 + count_calls p l2)%nat.
Proof. unfold count_calls. rewrite filter_app, length_app. reflexivity. Qed.

(** Sending a stored row again, any number of times. *)
Lemma insert_all_dups (cols : nat) (nk hf : bool) (rs : list row)
                      (rep : Representation) (values : list item) (r : row)
                      (k : nat) :
  coerce values = Some r ->
  List.length r = cols ->
  In r rs ->
  nk || hf = true ->
  forall s : sink,
    holds e cols nk hf s rs rep ->
    exists (s' : sink) (l : list Call),
      insert_all (S := storage e) (repeat values k) s =
        (Ret (repeat DuplicateRejected k), s', l)
      /\ holds e cols nk hf s' rs rep
      /\ m_rows_in_table s' = m_rows_in_table s
      /\ count_calls is_promote l = 0%nat.
Proof.
  intros Hco Hlen Hin Hk. induction k as [|k IH]; intros s Hs.
  - exists s, []. repeat split; auto.
  - destruct (insert_dup _ _ _ _ _ _ _ _ Hs Hco Hlen Hin Hk)
      as (s1 & l1 & E1 & Hs1 & Hm1 & Hp1).
    destruct (IH s1 Hs1) as (s2 & l2 & E2 & Hs2 & Hm2 & Hp2).
    exists s2, (l1 ++ l2). split.
    { cbn [repeat]. exact (insert_all_cons _ _ _ _ _ _ _ _ _ E1 E2). }
    split; [exact Hs2|]. split; [congruence|].
    rewrite count_calls_app. lia.
Qed.

Lemma quota_allows_le (n m : nat) :
  (n <= m)%nat -> quota_allows e m = true -> quota_allows e n = true.
Proof.
  unfold quota_allows. destruct (disk_quota e) as [q|]; [|reflexivity].
  intros Hle H. apply Nat.leb_le in H. apply Nat.leb_le. lia.
Qed.

Lemma room_of_capacity (rep : Representation) (k n : nat) :
  capacity e rep n = true ->
  (k < n)%nat ->
  (rep = InMemoryStore -> (k <= tmp_table_size e)%nat) ->
  room e rep k = true
  /\ capacity e (next_representation e rep k) n = true
  /\ representation_at e (next_representation e rep k) n =
     representation_at e rep n.
Proof.
  intros Hcap Hk Hinv.
  destruct rep; unfold room, capacity, next_representation in *.
  - specialize (Hinv eq_refl).
    destruct (Nat.ltb_spec k (tmp_table_size e)) as [Hlt|Hge].
    + repeat split; auto.
    + unfold representation_at.
      destruct (Nat.leb_spec n (tmp_table_size e)) as [Hle|Hgt]; [lia|].
      cbn [orb] in Hcap. apply andb_prop in Hcap. destruct Hcap as [Hd Hq].
      rewrite Hd. cbn [orb andb].
      rewrite (quota_allows_le (Datatypes.S k) n) by (lia || assumption).
      repeat split; auto.
  - rewrite (quota_allows_le (Datatypes.S k) n) by (lia || assumption).
    repeat split; auto.
Qed.

Lemma promotions_step (rep : Representation) (k n : nat) :
  (k < n)%nat ->
  (rep = InMemoryStore -> (k <= tmp_table_size e)%nat) ->
  (promotions rep (next_representation e rep k)
   + promotions (next_representation e rep k) (representation_at e rep n))%nat
  = promotions rep (representation_at e rep n).
Proof.
  intros Hk Hinv.
  destruct rep; unfold next_representation, representation_at;
    [|reflexivity].
  specialize (Hinv eq_refl).
  destruct (Nat.ltb_spec k (tmp_table_size e)).
  - destruct (n <=? tmp_table_size e)%nat; reflexivity.
  - destruct (Nat.leb_spec n (tmp_table_size e)); [lia|reflexivity].
Qed.

(** Sending rows that are new and pairwise different: all are retained, in
    order, across a promotion if one is needed. *)
Lemma insert_all_new (cols : nat) (nk hf : bool)
                     (vs : list (list item)) (rs : list row) :
  project_all cols vs rs ->
  forall (s : sink) (rs0 : list row) (rep : Representation),
    holds e cols nk hf s rs0 rep ->
    NoDup (rs0 ++ rs) ->
    capacity e rep (List.length (rs0 ++ rs)) = true ->
    exists (s' : sink) (l : list Call),
      insert_all (S := storage e) vs s =
        (Ret (repeat Inserted (List.length rs)), s', l)
      /\ holds e cols nk hf s' (rs0 ++ rs)
               (representation_at e rep (List.length (rs0 ++ rs)))
      /\ m_rows_in_table s' =
         Nat.iter (List.length rs) ha_rows_incr (m_rows_in_table s)
      /\ count_calls is_promote l =
         promotions rep (representation_at e rep (List.length (rs0 ++ rs))).
Proof.
  induction 1 as [|v r vs rs [Hco Hlen] Hrest IH]; intros s rs0 rep Hs Hnd Hcap.
  - exists s, []. rewrite app_nil_r in *.
    assert (Hrep : representation_at e rep (List.length rs0) = rep).
    { destruct Hs as (buf & ii & _ & _ & Hmem). destruct rep; cbn; auto.
      specialize (Hmem eq_refl). apply Nat.leb_le in Hmem. rewrite Hmem.
      reflexivity. }
    rewrite Hrep. repeat split; auto. destruct rep; reflexivity.
  - assert (Hinv : rep = InMemoryStore ->
                   (List.length rs0 <= tmp_table_size e)%nat)
      by (destruct Hs as (buf & ii & _ & _ & Hmem); exact Hmem).
    assert (Hk : (List.length rs0 < List.length (rs0 ++ r :: rs))%nat)
      by (rewrite length_app; cbn; lia).
    destruct (room_of_capacity _ _ _ Hcap Hk Hinv) as (Hroom & Hcap1 & Hrep1).
    assert (Hnew : ~ In r rs0).
    { intros Hin. apply NoDup_remove_2 in Hnd. apply Hnd.
      apply in_or_app. left. exact Hin. }
    destruct (insert_new _ _ _ _ _ _ _ _ Hs Hco Hlen Hnew Hroom)
      as (s1 & l1 & E1 & Hs1 & Hm1 & Hp1).
    assert (Eapp : rs0 ++ r :: rs = (rs0 ++ [r]) ++ rs)
      by (rewrite <- app_assoc; reflexivity).
    rewrite Eapp in *.
    destruct (IH s1 (rs0 ++ [r]) _ Hs1 Hnd Hcap1)
      as (s2 & l2 & E2 & Hs2 & Hm2 & Hp2).
    exists s2, (l1 ++ l2). split.
    { exact (insert_all_cons _ _ _ _ _ _ _ _ _ E1 E2). }
    rewrite Hrep1 in Hs2, Hp2.
    split; [exact Hs2|]. split.
    { rewrite Hm2, Hm1. cbn [List.length]. rewrite Nat.iter_succ_r.
      reflexivity. }
    rewrite count_calls_app, Hp1, Hp2.
    apply promotions_step; assumption.
Qed.

Lemma iter_ha_rows_incr (n : nat) :
  Z.of_nat n < ha_rows_modulus ->
  Nat.iter n ha_rows_incr 0 = Z.of_nat n.
Proof.
  induction n as [|n IH]; intros Hn; [reflexivity|].
  rewrite Nat.iter_succ, IH by lia.
  rewrite ha_rows_incr_small by lia. lia.
Qed.

(** Provisioning for a distinct or plain materialization with a physical
    table, from the constructor. *)
Lemma provision_holds (u : Query_expression) (cols : list item)
                      (d : bool) :
  alloc_ok e = true ->
  exists (s : sink) (l : list Call),
    provision e u cols d (Query_result_intersect_new (S := storage e)) =
      (Ret false, s, l)
    /\ holds e (List.length (VisibleFields (S := storage e) cols))
             (uses_native_key
                (select d (is_recursive u) (mixed_intersect_operators u)))
             (uses_hash_field
                (select d (is_recursive u) (mixed_intersect_operators u)))
             s [] InMemoryStore
    /\ m_rows_in_table s = 0
    /\ count_calls is_promote l = 0%nat.
Proof.
  intros Ha.
  destruct u as [[|] [|]], d; unfold provision; run; cbn;
    unfold create; rewrite Ha; cbn;
    (do 2 eexists; split; [reflexivity|];
     split; [|split; reflexivity];
     do 2 eexists; split; [reflexivity|];
     split; [intros H; first [reflexivity|discriminate H]
            |intros _; cbn; lia]).
Qed.

(** reset on a provisioned sink whose storage can be emptied. *)
Lemma reset_holds (cols : nat) (nk hf : bool) (s : sink) (rs : list row)
                  (rep : Representation) :
  truncate_ok e = true ->
  holds e cols nk hf s rs rep ->
  exists s' : sink,
    reset (S := storage e) s = (Ret false, s', [Call_empty_result_table])
    /\ holds e cols nk hf s' [] rep
    /\ m_rows_in_table s' = 0.
Proof.
  intros Htr (buf & ii & Ht & Hii & Hmem).
  rewrite reset_spec, Ht. cbn. unfold empty. cbn. rewrite Htr. cbn.
  eexists. split; [reflexivity|]. split; [|reflexivity].
  exists buf, ii. split; [reflexivity|]. split; [exact Hii|].
  intros _. cbn. lia.
Qed.

Lemma episode_run (u : Query_expression) (cols : list item) (d : bool)
                  (vs : list (list item)) (s0 s1 : sink) (b : bool)
                  (os : list Outcome) (l0 l1 : list Call) :
  provision e u cols d (Query_result_intersect_new (S := storage e)) =
    (Ret b, s0, l0) ->
  insert_all (S := storage e) vs s0 = (Ret os, s1, l1) ->
  episode e u cols d vs (Query_result_intersect_new (S := storage e)) =
    (Ret os, s1, l0 ++ l1).
Proof.
  intros H0 H1. unfold episode, bind. rewrite H0, H1. reflexivity.
Qed.

(** C1. A materialization provisioned as distinct for a query expression
    that is neither recursive nor mixed uses the native unique key.  Sending
    the same row N >= 1 times gives Inserted, then DuplicateRejected N-1
    times, and a row count of 1, the table holding that one row.  With two
    integer columns, the rows (1,2), (1,2), (3,4) give
    [Inserted, DuplicateRejected, Inserted] and a row count of 2. *)
Theorem dedup_native_key :
  select true false false = NativeUniqueKey
  /\ (forall (cols values : list item) (r : row) (N : nat),
        alloc_ok e = true ->
        capacity e InMemoryStore 1 = true ->
        coerce values = Some r ->
        List.length r = List.length (VisibleFields (S := storage e) cols) ->
        (1 <= N)%nat ->
        exists (s : sink) (l : list Call) (rep : Representation),
          episode e (mkQuery_expression false false) cols true
                  (repeat values N)
                  (Query_result_intersect_new (S := storage e)) =
            (Ret (Inserted :: repeat DuplicateRejected (N - 1)), s, l)
          /\ row_count s = 1
          /\ holds e (List.length (VisibleFields (S := storage e) cols))
                   true false s [r] rep)
  /\ (alloc_ok e = true ->
      capacity e InMemoryStore 2 = true ->
      exists (s : sink) (l : list Call) (rep : Representation),
        episode e (mkQuery_expression false false) (ints [0; 0]) true
                [ints [1; 2]; ints [1; 2]; ints [3; 4]]
                (Query_result_intersect_new (S := storage e)) =
          (Ret [Inserted; DuplicateRejected; Inserted], s, l)
        /\ row_count s = 2
        /\ holds e 2 true false s [[1; 2]; [3; 4]] rep).
Proof.
  split; [reflexivity|]. split.
  - intros cols values r N Ha Hcap Hco Hlen HN.
    destruct (provision_holds (mkQuery_expression false false) cols true Ha)
      as (s0 & l0 & E0 & Hs0 & Hm0 & _).
    cbn [is_recursive mixed_intersect_operators] in Hs0.
    change (select true false false) with NativeUniqueKey in Hs0.
    cbn [uses_native_key uses_hash_field] in Hs0.
    destruct (room_of_capacity InMemoryStore 0 1 Hcap) as (Hroom & _ & _);
      [lia|intros _; lia|].
    destruct (insert_new _ _ _ _ _ _ _ _ Hs0 Hco Hlen (fun H => H) Hroom)
      as (s1 & l1 & E1 & Hs1 & Hm1 & _).
    cbn [app List.length] in Hs1.
    destruct (insert_all_dups _ true false [r] _ values r (N - 1)
                Hco Hlen (or_introl eq_refl) eq_refl s1 Hs1)
      as (s2 & l2 & E2 & Hs2 & Hm2 & _).
    exists s2, (l0 ++ l1 ++ l2), (next_representation e InMemoryStore 0).
    split.
    { apply episode_run with (b := false) (s0 := s0); [exact E0|].
      replace N with (Datatypes.S (N - 1)) at 1 by lia.
      cbn [repeat]. exact (insert_all_cons _ _ _ _ _ _ _ _ _ E1 E2). }
    split; [|exact Hs2].
    unfold row_count. rewrite Hm2, Hm1, Hm0. reflexivity.
  - intros Ha Hcap.
    destruct (provision_holds (mkQuery_expression false false)
                (ints [0; 0]) true Ha)
      as (s0 & l0 & E0 & Hs0 & Hm0 & _).
    cbn [is_recursive mixed_intersect_operators] in Hs0.
    change (select true false false) with NativeUniqueKey in Hs0.
    cbn in Hs0.
    destruct (room_of_capacity InMemoryStore 0 2 Hcap)
      as (Hroom0 & Hcap1 & _); [lia|intros _; lia|].
    destruct (insert_new _ _ _ _ _ _ (ints [1; 2]) [1; 2] Hs0
                eq_refl eq_refl (fun H => H) Hroom0)
      as (s1 & l1 & E1 & Hs1 & Hm1 & _).
    cbn [app List.length] in Hs1.
    destruct (insert_dup _ _ _ _ _ _ (ints [1; 2]) [1; 2] Hs1
                eq_refl eq_refl (or_introl eq_refl) eq_refl)
      as (s2 & l2 & E2 & Hs2 & Hm2 & _).
    assert (Hinv : next_representation e InMemoryStore 0 = InMemoryStore ->
                   (1 <= tmp_table_size e)%nat).
    { destruct Hs2 as (_ & _ & _ & _ & Hmem). exact Hmem. }
    destruct (room_of_capacity _ 1 2 Hcap1) as (Hroom1 & _ & _);
      [lia|exact Hinv|].
    assert (Hnew : ~ In [3; 4] [[1; 2]]).
    { intros [H|[]]. discriminate H. }
    destruct (insert_new _ _ _ _ _ _ (ints [3; 4]) [3; 4] Hs2
                eq_refl eq_refl Hnew Hroom1)
      as (s3 & l3 & E3 & Hs3 & Hm3 & _).
    cbn [app List.length] in Hs3.
    eexists s3, _, _. split.
    { apply episode_run with (b := false) (s0 := s0); [exact E0|].
      eapply insert_all_cons; [exact E1|].
      eapply insert_all_cons; [exact E2|].
      eapply insert_all_cons; [exact E3|]. reflexivity. }
    split; [|exact Hs3].
    unfold row_count. rewrite Hm3, Hm2, Hm1, Hm0. reflexivity.
Qed.

(** C5. A promotion keeps what the store held.  In the source, a
    successful promotion on a table with a hash field is followed at once by
    ha_index_init on the new handler, and the row is counted.  Over the
    reference storage: the row that finds the memory full is retained by
    exactly one promotion, the rows stored before are all still there, in
    order, the count moves by one and the hash index is initialized again;
    and an episode of pairwise different rows that exceeds the memory ends
    on disk with all its rows stored and a row count equal to their
    number. *)
Theorem promotion_preserves_content :
  (forall (St : Storage) (values : list (Item (Storage := St)))
          (s : Query_result_intersect (S := St))
          (t t2 : Table (S := St)) (r : Row (Storage := St)) (error : Z)
          (h h4 h5 : handler (Storage := St)),
      table s = Some t ->
      fill_record t values = (false, r) ->
      check_unique_constraint (set_record_0 t r) = (true, t2) ->
      ha_write_row (file t2) (record_0 t2) = (error, h) ->
      error <> 0 ->
      is_ignorable_error h error = false ->
      is_capacity_exceeded error = true ->
      promote h = Some h4 ->
      ha_write_row h4 (record_0 t2) = (0, h5) ->
      hash_field t2 = true ->
      send_data values s =
        (Ret false,
         put_rows
           (put_table s (Some (set_file t2 (ha_index_init h5 0 false))))
           (ha_rows_incr (m_rows_in_table s)),
         [Call_fill_record; Call_check_unique_constraint;
          Call_ha_write_row error; Call_promote; Call_ha_write_row 0;
          Call_ha_index_init]))
  /\ (forall (cols : nat) (nk hf : bool) (s : sink) (rs : list row)
             (values : list item) (r : row),
         holds e cols nk hf s rs InMemoryStore ->
         List.length rs = tmp_table_size e ->
         disk_ok e = true ->
         quota_allows e (Datatypes.S (List.length rs)) = true ->
         coerce values = Some r ->
         List.length r = cols ->
         ~ In r rs ->
         exists (s' : sink) (l : list Call),
           insert (S := storage e) values s = (Ret Inserted, s', l)
           /\ holds e cols nk hf s' (rs ++ [r]) OnDiskStore
           /\ m_rows_in_table s' = ha_rows_incr (m_rows_in_table s)
           /\ count_calls is_promote l = 1%nat)
  /\ (forall (u : Query_expression) (cols : list item) (d : bool)
             (vs : list (list item)) (rs : list row),
         alloc_ok e = true ->
         project_all (List.length (VisibleFields (S := storage e) cols))
                     vs rs ->
         NoDup rs ->
         capacity e InMemoryStore (List.length rs) = true ->
         (tmp_table_size e < List.length rs)%nat ->
         Z.of_nat (List.length rs) < ha_rows_modulus ->
         exists (s : sink) (l : list Call),
           episode e u cols d vs
                   (Query_result_intersect_new (S := storage e)) =
             (Ret (repeat Inserted (List.length rs)), s, l)
           /\ holds e (List.length (VisibleFields (S := storage e) cols))
                    (uses_native_key
                       (select d (is_recursive u)
                               (mixed_intersect_operators u)))
                    (uses_hash_field
                       (select d (is_recursive u)
                               (mixed_intersect_operators u)))
                    s rs OnDiskStore
           /\ row_count s = Z.of_nat (List.length rs)
           /\ count_calls is_promote l = 1%nat).
Proof.
  split; [|split].
  - intros St values s t t2 r error h h4 h5 Ht Hf Hc Hw He Hi Hcap Hp Hw2 Hh.
    rewrite (send_data_promoted _ _ _ _ _ _ _ _ _ Ht Hf Hc Hw He Hi Hcap
               Hp Hw2).
    rewrite Hh. reflexivity.
  - intros cols nk hf s rs values r Hs Hfull Hd Hq Hco Hlen Hnew.
    assert (Hroom : room e InMemoryStore (List.length rs) = true).
    { unfold room. rewrite Hd, Hq. apply orb_true_r. }
    destruct (insert_new _ _ _ _ _ _ _ _ Hs Hco Hlen Hnew Hroom)
      as (s' & l & E & Hs' & Hm & Hp).
    assert (Hnext : next_representation e InMemoryStore (List.length rs) =
                    OnDiskStore).
    { unfold next_representation.
      destruct (Nat.ltb_spec (List.length rs) (tmp_table_size e));
        [lia|reflexivity]. }
    rewrite Hnext in Hs', Hp.
    exists s', l. repeat split; assumption.
  - intros u cols d vs rs Ha Hproj Hnd Hcap Hbig Hsmall.
    destruct (provision_holds u cols d Ha)
      as (s0 & l0 & E0 & Hs0 & Hm0 & Hp0).
    destruct (insert_all_new _ _ _ _ _ Hproj s0 [] InMemoryStore Hs0
                Hnd Hcap)
      as (s1 & l1 & E1 & Hs1 & Hm1 & Hp1).
    cbn [app] in Hs1, Hp1.
    assert (Hrep : representation_at e InMemoryStore (List.length rs) =
                   OnDiskStore).
    { unfold representation_at.
      destruct (Nat.leb_spec (List.length rs) (tmp_table_size e));
        [lia|reflexivity]. }
    rewrite Hrep in Hs1, Hp1.
    exists s1, (l0 ++ l1). split.
    { exact (episode_run _ _ _ _ _ _ _ _ _ _ E0 E1). }
    split; [exact Hs1|]. split.
    + unfold row_count. rewrite Hm1, Hm0.
      apply iter_ha_rows_incr. exact Hsmall.
    + rewrite count_calls_app, Hp0, Hp1. reflexivity.
Qed.

(** C6. reset zeroes the row count whatever the table, and reports an error
    exactly when empty_result_table does.  Over the reference storage it
    empties the rows and leaves the columns, the representation, the native
    key, the hash field and the index as they were; a second reset returns
    what the first returned and changes nothing; and after a reset, a new
    row followed by its duplicate gives a row count of 1, whatever the rows
    and the count of the episode before. *)
Theorem reset_idempotent_isolating :
  (forall (St : Storage) (s : Query_result_intersect (S := St)),
      row_count (exec reset s) = 0
      /\ result_of reset s =
           Ret (match table s with
                | Some t => fst (empty_result_table t)
                | None => false
                end))
  /\ (forall (s : sink) (t : tbl),
         table s = Some t ->
         created (file t) = true ->
         truncate_ok e = true ->
         reset (S := storage e) s =
           (Ret false,
            put_table (put_rows s 0)
              (Some {| file :=
                         {| columns := columns (file t); rows := [];
                            representation := representation (file t);
                            native_key := native_key (file t);
                            created := true;
                            ignore_dup_key := ignore_dup_key (file t);
                            index_inited := index_inited (file t) |};
                       record_0 := record_0 t;
                       hash_field := hash_field t |}),
            [Call_empty_result_table]))
  /\ (forall (s s1 : sink) (res : Result bool) (l : list Call),
         reset (S := storage e) s = (res, s1, l) ->
         reset (S := storage e) s1 = (res, s1, l))
  /\ (forall (cols : nat) (nk hf : bool) (s : sink) (rs : list row)
             (rep : Representation) (values : list item) (r : row),
         holds e cols nk hf s rs rep ->
         nk || hf = true ->
         truncate_ok e = true ->
         room e rep 0 = true ->
         coerce values = Some r ->
         List.length r = cols ->
         exists (s' : sink) (l : list Call),
           bind (S := storage e) (reset (S := storage e))
                (fun _ => insert_all (S := storage e) [values; values]) s =
             (Ret [Inserted; DuplicateRejected], s', l)
           /\ row_count s' = 1
           /\ holds e cols nk hf s' [r] (next_representation e rep 0)).
Proof.
  split; [|split; [|split]].
  - intros St s. unfold row_count, exec, result_of. rewrite reset_spec.
    destruct (table s); split; reflexivity.
  - intros s t Ht Hc Htr. rewrite reset_spec, Ht.
    destruct t as [[c rws rp nkey cr ig ix] buf hfld].
    cbn in Hc. subst cr. cbn. unfold empty. cbn. rewrite Htr. reflexivity.
  - intros s s1 res l H. rewrite reset_spec in H. rewrite reset_spec.
    destruct (table s) as [t|] eqn:Ht.
    + inversion H; subst. clear H.
      destruct t as [[c rws rp nkey cr ig ix] buf hfld].
      cbn. unfold empty. cbn.
      destruct cr; cbn; [|reflexivity].
      destruct (truncate_ok e) eqn:Htr; cbn; rewrite ?Htr; reflexivity.
    + inversion H; subst. cbn [table put_rows]. rewrite Ht. reflexivity.
  - intros cols nk hf s rs rep values r Hs Hk Htr Hroom Hco Hlen.
    destruct (reset_holds _ _ _ _ _ _ Htr Hs) as (s0 & E0 & Hs0 & Hm0).
    destruct (insert_new _ _ _ _ _ _ _ _ Hs0 Hco Hlen (fun H => H) Hroom)
      as (s1 & l1 & E1 & Hs1 & Hm1 & _).
    cbn [app List.length] in Hs1.
    destruct (insert_dup _ _ _ _ _ _ _ _ Hs1 Hco Hlen
                (or_introl eq_refl) Hk)
      as (s2 & l2 & E2 & Hs2 & Hm2 & _).
    exists s2, ([Call_empty_result_table] ++ l1 ++ l2 ++ []).
    split.
    { unfold bind at 1. rewrite E0.
      rewrite (insert_all_cons values [values] s0 s1 s2 Inserted
                 [DuplicateRejected] l1 (l2 ++ []) E1).
      - reflexivity.
      - eapply insert_all_cons; [exact E2|reflexivity]. }
    split; [|exact Hs2].
    unfold row_count. rewrite Hm2, Hm1, Hm0. reflexivity.
Qed.

End RefFacts.

(** * The theorems at concrete inputs *)

(** A recursive query (hash field) with memory for one row: the second new
    row forces the promotion, and the duplicate sent after it is still
    found, by the index that send_data initialized again. *)
Example hash_dedup_survives_promotion :
  let e := Ref.plain_env 1 in
  let '(res, s, l) :=
    Ref.episode e (mkQuery_expression true false) (Ref.ints [0; 0]) true
      [Ref.ints [1; 2]; Ref.ints [1; 2]; Ref.ints [3; 4]; Ref.ints [3; 4]]
      (Query_result_intersect_new (S := Ref.storage e)) in
  res = Ret [Inserted; DuplicateRejected; Inserted; DuplicateRejected]
  /\ row_count s = 2
  /\ count_calls is_promote l = 1%nat.
Proof. vm_compute. repeat split; reflexivity. Qed.

(** A provisioning that cannot allocate the table reports the failure and
    leaves the pointer null; it can be tried again. *)
Example failed_provisioning_leaves_no_table :
  let e := Ref.mkEnv false 4 true None true in
  let '(res, s, _) :=
    create_result_table (S := Ref.storage e) (Ref.ints [0; 0]) true 0
      EmptyString false true
      (Query_result_intersect_new (S := Ref.storage e)) in
  res = Ret true /\ table s = None.
Proof. vm_compute. split; reflexivity. Qed.

Lemma dedup_native_key_witness :
  Ref.alloc_ok (Ref.plain_env 16) = true
  /\ Ref.coerce (Ref.ints [1; 2]) = Some [1; 2]
  /\ exists s l rep,
       Ref.episode (Ref.plain_env 16) (mkQuery_expression false false)
                   (Ref.ints [0; 0]) true (repeat (Ref.ints [1; 2]) 3)
                   (Query_result_intersect_new
                      (S := Ref.storage (Ref.plain_env 16))) =
         (Ret [Inserted; DuplicateRejected; DuplicateRejected], s, l)
       /\ row_count s = 1
       /\ Ref.holds (Ref.plain_env 16) 2 true false s [[1; 2]] rep.
Proof.
  split; [reflexivity|]. split; [reflexivity|].
  exact (proj1 (proj2 (dedup_native_key (Ref.plain_env 16)))
           (Ref.ints [0; 0]) (Ref.ints [1; 2]) [1; 2] 3%nat
           eq_refl eq_refl eq_refl eq_refl (le_S _ _ (le_S _ _ (le_n 1)))).
Defined.

Lemma select_is_pure_witness :
  let s := mkSink (S := Ref.storage (Ref.plain_env 16))
                  (Some (mkQuery_expression true false))
                  Temp_table_param_default 5 None in
  table s = None
  /\ decision true
       (provisioning_param (S := Ref.storage (Ref.plain_env 16)) (unit_ s)
          (VisibleFields (S := Ref.storage (Ref.plain_env 16))
             (Ref.ints [0; 0])) false true) =
     HashPseudoKey.
Proof.
  intros s. split; [reflexivity|].
  exact (proj1 (proj2
           (proj2 (select_is_pure (S := Ref.storage (Ref.plain_env 16)))
              s (Ref.ints [0; 0]) true 0 EmptyString false true eq_refl))).
Defined.

Lemma send_data_ignorable_error_witness :
  let e := Ref.plain_env 4 in
  let t := Ref.sample_table [[1; 2]] Ref.InMemoryStore in
  let s := Ref.sample_sink e 1 t in
  ha_write_row (Storage := Ref.storage e) (Ref.sample_store [[1; 2]]
                  Ref.InMemoryStore) [1; 2] =
    (Ref.HA_ERR_FOUND_DUPP_KEY, Ref.sample_store [[1; 2]] Ref.InMemoryStore)
  /\ is_ignorable_error (Storage := Ref.storage e)
       (Ref.sample_store [[1; 2]] Ref.InMemoryStore)
       Ref.HA_ERR_FOUND_DUPP_KEY = true
  /\ result_of (insert (S := Ref.storage e) (Ref.ints [1; 2])) s =
     Ret DuplicateRejected
  /\ row_count (exec (send_data (S := Ref.storage e) (Ref.ints [1; 2])) s) =
     1.
Proof.
  intros e t s. split; [reflexivity|]. split; [reflexivity|].
  pose proof (proj1 (send_data_ignorable_error (S := Ref.storage e))
                (Ref.ints [1; 2]) s t
                (set_record_0 (S := Ref.storage e) t [1; 2]) [1; 2]
                Ref.HA_ERR_FOUND_DUPP_KEY
                (Ref.sample_store [[1; 2]] Ref.InMemoryStore)
                eq_refl eq_refl eq_refl eq_refl
                ltac:(discriminate)
                eq_refl) as (_ & Hi & Hr & _).
  split; [|exact Hr].
  unfold result_of. rewrite Hi. reflexivity.
Defined.

Lemma send_data_promotes_once_witness :
  let e := Ref.cramped_env in
  let t := Ref.sample_table [] Ref.InMemoryStore in
  let s := Ref.sample_sink e 0 t in
  ha_write_row (Storage := Ref.storage e)
               (Ref.sample_store [] Ref.InMemoryStore) [1; 2] =
    (Ref.HA_ERR_RECORD_FILE_FULL, Ref.sample_store [] Ref.InMemoryStore)
  /\ ha_write_row (Storage := Ref.storage e)
                  (Ref.sample_store [] Ref.OnDiskStore) [1; 2] =
       (Ref.HA_ERR_RECORD_FILE_FULL, Ref.sample_store [] Ref.OnDiskStore)
  /\ count_calls is_promote
       (calls_of (send_data (S := Ref.storage e) (Ref.ints [1; 2])) s) =
     1%nat
  /\ result_of (insert (S := Ref.storage e) (Ref.ints [1; 2])) s =
     Ret (Failure StorageFatal).
Proof.
  intros e t s. split; [reflexivity|]. split; [reflexivity|].
  pose proof (send_data_promotes_once (S := Ref.storage e)
                (Ref.ints [1; 2]) s t
                (set_record_0 (S := Ref.storage e) t [1; 2]) [1; 2]
                Ref.HA_ERR_RECORD_FILE_FULL
                (Ref.sample_store [] Ref.InMemoryStore)
                eq_refl eq_refl eq_refl eq_refl
                ltac:(discriminate)
                eq_refl eq_refl) as (Hone & _ & _ & Hm).
  split; [exact Hone|].
  cbn in Hm. exact (proj1 (proj2 Hm)).
Defined.

Lemma promotion_preserves_content_witness :
  let e := Ref.plain_env 1 in
  Ref.capacity e Ref.InMemoryStore 2 = true
  /\ (Ref.tmp_table_size e < 2)%nat
  /\ exists s l,
       Ref.episode e (mkQuery_expression false false) (Ref.ints [0; 0])
                   true [Ref.ints [1; 2]; Ref.ints [3; 4]]
                   (Query_result_intersect_new (S := Ref.storage e)) =
         (Ret [Inserted; Inserted], s, l)
       /\ Ref.holds e 2 true false s [[1; 2]; [3; 4]] Ref.OnDiskStore
       /\ row_count s = 2
       /\ count_calls is_promote l = 1%nat.
Proof.
  intros e. split; [reflexivity|]. split; [exact (le_n 2)|].
  refine (proj2 (proj2 (promotion_preserves_content e))
            (mkQuery_expression false false) (Ref.ints [0; 0]) true
            [Ref.ints [1; 2]; Ref.ints [3; 4]] [[1; 2]; [3; 4]]
            eq_refl _ _ eq_refl (le_n 2) eq_refl).
  - repeat constructor.
  - constructor.
    + intros [H|[]]. discriminate H.
    + constructor; [intros []|constructor].
Defined.

Lemma reset_idempotent_isolating_witness :
  let e := Ref.plain_env 1 in
  let s := Ref.sample_sink e 7
             (Ref.sample_table [[5; 6]; [1; 2]] Ref.OnDiskStore) in
  Ref.room e Ref.OnDiskStore 0 = true
  /\ exists s' l,
       bind (S := Ref.storage e) (reset (S := Ref.storage e))
            (fun _ => insert_all (S := Ref.storage e)
                        [Ref.ints [1; 2]; Ref.ints [1; 2]]) s =
         (Ret [Inserted; DuplicateRejected], s', l)
       /\ row_count s' = 1
       /\ Ref.holds e 2 true false s' [[1; 2]] Ref.OnDiskStore.
Proof.
  intros e s. split; [reflexivity|].
  refine (proj2 (proj2 (proj2 (reset_idempotent_isolating e)))
            2%nat true false s [[5; 6]; [1; 2]] Ref.OnDiskStore
            (Ref.ints [1; 2]) [1; 2] _ eq_refl eq_refl eq_refl eq_refl
            eq_refl).
  exists [], false. split; [reflexivity|].
  split; [intros H; discriminate H|intros H; discriminate H].
Defined.

Lemma cleanup_discards_reset_failure_witness :
  let e := Ref.stuck_env in
  let t := Ref.sample_table [[1; 2]] Ref.InMemoryStore in
  let s := Ref.sample_sink e 1 t in
  fst (empty_result_table (Storage := Ref.storage e) t) = true
  /\ result_of (reset (S := Ref.storage e)) s = Ret true
  /\ result_of (cleanup (S := Ref.storage e)) s = Ret tt.
Proof.
  intros e t s. split; [reflexivity|].
  exact (proj2 (proj2 (cleanup_discards_reset_failure
                         (S := Ref.storage e) s)) t eq_refl eq_refl).
Defined.

Lemma send_data_projection_error_witness :
  let e := Ref.plain_env 4 in
  let t := Ref.sample_table [[1; 2]] Ref.InMemoryStore in
  let s := Ref.sample_sink e 1 t in
  let bad := [Ref.mkItem None false; Ref.mkItem (Some 2) false] in
  fill_record (Storage := Ref.storage e) t bad = (true, [])
  /\ send_data (S := Ref.storage e) bad s = (Ret true, s, [Call_fill_record])
  /\ result_of (insert (S := Ref.storage e) bad) s =
     Ret (Failure ProjectionError)
  /\ row_count (exec (send_data (S := Ref.storage e) bad) s) = 1.
Proof.
  intros e t s bad. split; [reflexivity|].
  pose proof (send_data_projection_error (S := Ref.storage e) bad s t []
                eq_refl eq_refl) as (Hs & Hi & _ & _ & Hr & _).
  split; [exact Hs|]. split; [|exact Hr].
  unfold result_of. rewrite Hi. reflexivity.
Defined.

Lemma reset_without_table_witness :
  let e := Ref.plain_env 4 in
  let s := mkSink (S := Ref.storage e) None Temp_table_param_default 3
                  None in
  let s1 := exec (create_result_table (S := Ref.storage e)
                    (Ref.ints [0; 0]) true 0 EmptyString false false) s in
  table s = None
  /\ result_of (reset (S := Ref.storage e)) s = Ret false
  /\ row_count (exec (reset (S := Ref.storage e)) s) = 0
  /\ Ref.alloc_ok e = true
  /\ table s1 <> None
  /\ result_of (reset (S := Ref.storage e)) s1 = Ret false
  /\ row_count (exec (reset (S := Ref.storage e)) s1) = 0.
Proof.
  intros e s s1. split; [reflexivity|].
  pose proof (proj1 (reset_without_table (S := Ref.storage e)) s eq_refl)
    as (Hr & Hc).
  split; [unfold result_of; rewrite Hr; reflexivity|].
  split; [exact Hc|]. split; [reflexivity|].
  split; [discriminate|].
  pose proof (proj2 (proj2 (proj2 (proj2
                (reset_without_table (S := Ref.storage e)))))
                e s (Ref.ints [0; 0]) true 0 EmptyString false
                eq_refl eq_refl) as (_ & Hr1 & Hc1 & _).
  split; [exact Hr1|exact Hc1].
Defined.

Lemma create_result_table_assertion_witness :
  let e := Ref.plain_env 4 in
  table (Query_result_intersect_new (S := Ref.storage e)) = None
  /\ (exists failed : bool,
        result_of (create_result_table (S := Ref.storage e)
                     (Ref.ints [0; 0]) true 0 EmptyString false true)
                  (Query_result_intersect_new (S := Ref.storage e)) =
          Ret failed)
  /\ create_result_table (S := Ref.storage e)
       (Ref.ints [0; 0]) true 0 EmptyString false true
       (Ref.sample_sink e 0 (Ref.sample_table [] Ref.InMemoryStore)) =
     (Abort AssertionFailed,
      Ref.sample_sink e 0 (Ref.sample_table [] Ref.InMemoryStore), []).
Proof.
  intros e. split; [reflexivity|]. split.
  - exact (proj1 (create_result_table_assertion (S := Ref.storage e))
             (Query_result_intersect_new (S := Ref.storage e))
             (Ref.ints [0; 0]) true 0 EmptyString false true eq_refl).
  - exact (proj1 (proj2 (proj2
                   (create_result_table_assertion (S := Ref.storage e))))
             (Ref.sample_sink e 0 (Ref.sample_table [] Ref.InMemoryStore))
             (Ref.ints [0; 0]) true 0 EmptyString false true
             ltac:(discriminate)).
Defined.

(** * Further properties of the methods *)

Section MethodFacts.
Context {S : Storage}.

(** One call of send_data: the counter moves once for each accepted write,
    there is at most one, and none when the call fails or aborts. *)
Lemma send_data_accounting (values : list Item)
                           (s : Query_result_intersect) :
  m_rows_in_table (exec (send_data values) s) =
    Nat.iter (count_calls is_ok_write (calls_of (send_data values) s))
             ha_rows_incr (m_rows_in_table s)
  /\ (count_calls is_ok_write (calls_of (send_data values) s) <= 1)%nat
  /\ (result_of (send_data values) s <> Ret false ->
      count_calls is_ok_write (calls_of (send_data values) s) = 0%nat).
Proof.
  unfold count_calls. run.
  destruct (table s) as [t|]; run;
    [|cbn; repeat split; auto].
  destruct (fill_record t values) as [err r]. run.
  destruct err; run; [cbn; repeat split; auto|].
  destruct (check_unique_constraint (set_record_0 t r)) as [u t2]. run.
  destruct u; run; [|cbn; repeat split; auto; congruence].
  destruct (ha_write_row (file t2) (record_0 t2)) as [e h]. run.
  destruct (e =? 0) eqn:He; run;
    [cbn; rewrite He; cbn; repeat split; auto; congruence|].
  destruct (is_ignorable_error h e) eqn:Hi; run; rewrite ?Hi; run;
    [cbn; rewrite He; cbn; repeat split; auto; congruence|].
  destruct (is_capacity_exceeded e); run;
    [|cbn; rewrite He; cbn; repeat split; auto].
  destruct (promote h) as [h4|]; run;
    [|cbn; rewrite He; cbn; repeat split; auto].
  destruct (ha_write_row h4 (record_0 t2)) as [e2 h5]. run.
  destruct (e2 =? 0) eqn:He2; run;
    [|cbn; rewrite He, He2; cbn; repeat split; auto].
  destruct (hash_field t2); run; cbn; rewrite He, He2; cbn;
    repeat split; auto; congruence.
Qed.


(** X2. send_data needs a table: on an object whose table pointer is null
    it dereferences the null pointer before any call to the storage layer
    and leaves the object as it was; with a table attached it always
    returns. *)
Theorem send_data_requires_table (values : list Item)
                                 (s : Query_result_intersect) :
  (table s = None ->
   send_data values s = (Abort NullDereference, s, []))
  /\ (table s <> None ->
      exists (failed : bool) (t' : Table),
        result_of (send_data values) s = Ret failed
        /\ table (exec (send_data values) s) = Some t').
Proof.
  split.
  - intros Ht. run. rewrite Ht. reflexivity.
  - intros Ht. destruct (table s) as [t|] eqn:E; [|congruence].
    destruct (send_data_returns values s t E) as (b & s' & l & t' & Hs & Ht').
    exists b, t'. unfold result_of, exec. rewrite Hs. split; [reflexivity|].
    exact Ht'.
Qed.

(** X3. A row that check_unique_constraint reports as already present is
    dropped at line 117: send_data returns false, no write and no promotion
    is attempted, the row count is unchanged, and the table is the one that
    the check left. *)
Theorem send_data_rejects_found_row
          (values : list Item) (s : Query_result_intersect)
          (t t2 : Table) (r : Row) :
  table s = Some t ->
  fill_record t values = (false, r) ->
  check_unique_constraint (set_record_0 t r) = (false, t2) ->
  send_data values s =
    (Ret false, put_table s (Some t2),
     [Call_fill_record; Call_check_unique_constraint])
  /\ row_count (exec (send_data values) s) = row_count s
  /\ count_calls is_write (calls_of (send_data values) s) = 0%nat
  /\ count_calls is_promote (calls_of (send_data values) s) = 0%nat
  /\ result_of (insert values) s = Ret DuplicateRejected.
Proof.
  intros Ht Hf Hc.
  destruct (send_data_duplicate_by_check _ _ _ _ _ Ht Hf Hc) as [E Ei].
  split; [exact E|].
  unfold row_count, exec, calls_of, result_of. rewrite E, Ei. cbn.
  repeat split.
Qed.

(** X4. A row that the handler accepts at the first write is counted once:
    send_data returns false and the row count moves by one, wrapping from
    2^64 - 1 to 0 as the unsigned counter does; the outcome is Inserted also
    at the wrap. *)
Theorem send_data_counts_written_row
          (values : list Item) (s : Query_result_intersect)
          (t t2 : Table) (r : Row) (h : handler) :
  table s = Some t ->
  fill_record t values = (false, r) ->
  check_unique_constraint (set_record_0 t r) = (true, t2) ->
  ha_write_row (file t2) (record_0 t2) = (0, h) ->
  result_of (send_data values) s = Ret false
  /\ table (exec (send_data values) s) = Some (set_file t2 h)
  /\ row_count (exec (send_data values) s) = ha_rows_incr (row_count s)
  /\ (0 <= row_count s < ha_rows_modulus - 1 ->
      row_count (exec (send_data values) s) = row_count s + 1)
  /\ (row_count s = ha_rows_modulus - 1 ->
      row_count (exec (send_data values) s) = 0)
  /\ count_calls is_promote (calls_of (send_data values) s) = 0%nat
  /\ result_of (insert values) s = Ret Inserted.
Proof.
  intros Ht Hf Hc Hw.
  pose proof (send_data_inserted _ _ _ _ _ _ Ht Hf Hc Hw) as E.
  unfold result_of, exec, calls_of, row_count, insert. rewrite E.
  cbn [fst snd m_rows_in_table table put_rows put_table].
  split; [reflexivity|]. split; [reflexivity|]. split; [reflexivity|].
  split.
  { intros Hm. apply ha_rows_incr_small; lia. }
  split.
  { intros Hm. rewrite Hm. reflexivity. }
  split; [reflexivity|].
  rewrite outcome_inserted by reflexivity. reflexivity.
Qed.

(** X5. send_data touches the table and the row count only: the query
    expression set by prepare and the parameter object of the provisioning
    are the same after the call, whatever the storage layer answers and
    also when the call fails or aborts, and the call never detaches the
    table. *)
Theorem send_data_frame (values : list Item) (s : Query_result_intersect) :
  unit_ (exec (send_data values) s) = unit_ s
  /\ tmp_table_param (exec (send_data values) s) = tmp_table_param s
  /\ (table (exec (send_data values) s) = None <-> table s = None).
Proof.
  run.
  destruct (table s) as [t|] eqn:Ht; run;
    [|rewrite Ht; repeat split; auto].
  assert (N : forall x : Table, Some x = None <-> Some t = None)
    by (intros x; split; discriminate).
  destruct (fill_record t values) as [err r]. run.
  destruct err; run; [repeat split; apply N|].
  destruct (check_unique_constraint (set_record_0 t r)) as [u t2]. run.
  destruct u; run; [|repeat split; apply N].
  destruct (ha_write_row (file t2) (record_0 t2)) as [e h]. run.
  destruct (e =? 0); run; [repeat split; apply N|].
  destruct (is_ignorable_error h e) eqn:Hi; run; rewrite ?Hi; run;
    [repeat split; apply N|].
  destruct (is_capacity_exceeded e); run; [|repeat split; apply N].
  destruct (promote h) as [h4|]; run; [|repeat split; apply N].
  destruct (ha_write_row h4 (record_0 t2)) as [e2 h5]. run.
  destruct (e2 =? 0); run; [|repeat split; apply N].
  destruct (hash_field t2); run; repeat split; apply N.
Qed.

Lemma insert_accounting (values : list Item) (s : Query_result_intersect) :
  m_rows_in_table (exec (insert values) s) =
    Nat.iter (count_calls is_ok_write (calls_of (insert values) s))
             ha_rows_incr (m_rows_in_table s)
  /\ (forall o : Outcome,
        result_of (insert values) s = Ret o ->
        List.length (filter is_inserted [o]) =
          count_calls is_ok_write (calls_of (insert values) s)).
Proof.
  destruct (send_data_accounting values s) as (Hm & Hle & Hfail).
  unfold exec, calls_of, result_of, insert in *.
  destruct (send_data values s) as [[res s'] l]. cbn [fst snd] in *.
  destruct res as [failed|c]; cbn [fst snd]; split; try exact Hm;
    [|intros o H; discriminate H].
  intros o H. inversion H; subst o. clear H.
  destruct failed.
  - rewrite Hfail by discriminate. unfold outcome.
    destruct (existsb is_write l); reflexivity.
  - unfold outcome.
    destruct (count_calls is_ok_write l) as [|[|k]]; [| |lia];
      cbn [Nat.iter nat_rect] in Hm; rewrite Hm.
    + rewrite Z.eqb_refl. reflexivity.
    + destruct (Z.eqb_spec (ha_rows_incr (m_rows_in_table s))
                           (m_rows_in_table s)) as [E|E];
        [exfalso; exact (ha_rows_incr_neq _ E)|reflexivity].
Qed.

Lemma insert_all_accounting (vs : list (list Item)) :
  forall s : Query_result_intersect,
    m_rows_in_table (exec (insert_all vs) s) =
      Nat.iter (count_calls is_ok_write (calls_of (insert_all vs) s))
               ha_rows_incr (m_rows_in_table s)
    /\ (forall os : list Outcome,
          result_of (insert_all vs) s = Ret os ->
          List.length (filter is_inserted os) =
            count_calls is_ok_write (calls_of (insert_all vs) s)
          /\ List.length os = List.length vs).
Proof.
  induction vs as [|v vs IH]; intros s.
  - split; [reflexivity|]. intros os H. inversion H. split; reflexivity.
  - destruct (insert_accounting v s) as (Hm1 & Ho1).
    unfold exec, calls_of, result_of in *. cbn [insert_all].
    unfold bind, ret.
    destruct (insert v s) as [[r1 s1] l1]. cbn [fst snd] in *.
    destruct r1 as [o|c]; [|split; [exact Hm1|intros os H; discriminate H]].
    destruct (IH s1) as (Hm2 & Ho2).
    destruct (insert_all vs s1) as [[r2 s2] l2]. cbn [fst snd] in *.
    destruct r2 as [os2|c]; cbn [fst snd].
    + rewrite app_nil_r. split.
      * unfold count_calls in *. rewrite filter_app, length_app.
        rewrite Nat.add_comm, Nat.iter_add, <- Hm1. exact Hm2.
      * intros os H. inversion H; subst os. clear H.
        destruct (Ho2 os2 eq_refl) as [Hc Hl].
        specialize (Ho1 o eq_refl).
        unfold count_calls in *. rewrite filter_app, length_app.
        rewrite <- Hc, <- Ho1. cbn [filter List.length].
        destruct (is_inserted o); cbn [List.length]; split; lia.
    + split; [|intros os H; discriminate H].
      unfold count_calls in *. rewrite filter_app, length_app.
      rewrite Nat.add_comm, Nat.iter_add, <- Hm1. exact Hm2.
Qed.

(** X6. Over any sequence of rows and whatever the storage layer answers,
    the row count moves once for each row reported as Inserted, which is
    once for each write the handler accepted: rows that were rejected, that
    failed or that could not be projected are not counted.  While the
    counter does not wrap, the row count after the sequence is the row count
    before plus the number of Inserted outcomes. *)
Theorem row_count_is_inserted_outcomes
          (vs : list (list Item)) (s : Query_result_intersect)
          (os : list Outcome) :
  result_of (insert_all vs) s = Ret os ->
  List.length os = List.length vs
  /\ List.length (filter is_inserted os) =
     count_calls is_ok_write (calls_of (insert_all vs) s)
  /\ row_count (exec (insert_all vs) s) =
     Nat.iter (List.length (filter is_inserted os)) ha_rows_incr
              (row_count s)
  /\ (0 <= row_count s ->
      row_count s + Z.of_nat (List.length vs) < ha_rows_modulus ->
      row_count (exec (insert_all vs) s) =
        row_count s + Z.of_nat (List.length (filter is_inserted os))).
Proof.
  intros H.
  destruct (insert_all_accounting vs s) as (Hm & Ho).
  destruct (Ho os H) as (Hc & Hl).
  split; [exact Hl|]. split; [exact Hc|].
  unfold row_count. rewrite Hm, <- Hc.
  split; [reflexivity|].
  intros H0 Hbound.
  assert (Hk : (List.length (filter is_inserted os) <= List.length vs)%nat).
  { rewrite <- Hl. apply filter_length_le. }
  clear Hm Ho Hc H.
  generalize dependent (List.length (filter is_inserted os)).
  intros k. induction k as [|k IH]; intros Hk.
  - cbn. lia.
  - rewrite Nat.iter_succ, IH by lia.
    rewrite ha_rows_incr_small by lia. lia.
Qed.

(** X7. What each method does to the row count: send_data leaves it or
    moves it by one, reset and cleanup set it to zero (also when emptying
    the table fails), and prepare, postponed_prepare, send_eof, flush and
    create_result_table leave it as it is; in particular provisioning does
    not reset the count. *)
Theorem method_row_count (m : Method) (s : Query_result_intersect) :
  let n := row_count s in
  let n' := row_count (exec (invoke m) s) in
  match m with
  | call_send_data _ => n' = n \/ n' = ha_rows_incr n
  | call_reset | call_cleanup => n' = 0
  | _ => n' = n
  end.
Proof.
  destruct m; cbn zeta.
  - reflexivity.
  - reflexivity.
  - destruct (send_data_accounting values s) as (Hm & Hle & _).
    unfold row_count. cbn [invoke]. rewrite Hm.
    destruct (count_calls is_ok_write (calls_of (send_data values) s))
      as [|[|k]]; [left; reflexivity|right; reflexivity|lia].
  - reflexivity.
  - reflexivity.
  - cbn [invoke]. unfold exec, bind, cleanup, bind, ret.
    rewrite reset_spec. destruct (table s); reflexivity.
  - cbn [invoke]. unfold exec. rewrite reset_spec.
    destruct (table s); reflexivity.
  - run. destruct (table s); run; [reflexivity|].
    destruct (create_tmp_table _ _ _ _ _) as [t0|]; run; [|reflexivity].
    destruct create_table; run; [|reflexivity].
    destruct (hash_field t0); run; reflexivity.
Qed.

Lemma invoke_keeps_table (m : Method) (s : Query_result_intersect) :
  table s <> None -> table (exec (invoke m) s) <> None.
Proof.
  intros Ht. destruct (table s) as [t|] eqn:E; [clear Ht|congruence].
  destruct m; cbn [invoke].
  - run. rewrite E. discriminate.
  - run. rewrite E. discriminate.
  - destruct (send_data_returns values s t E) as (b & s' & l & t' & Hs & Ht').
    unfold exec. rewrite Hs. cbn. rewrite Ht'. discriminate.
  - run. rewrite E. discriminate.
  - run. rewrite E. discriminate.
  - unfold exec, bind, cleanup, bind, ret. rewrite reset_spec, E. cbn.
    discriminate.
  - unfold exec. rewrite reset_spec, E. cbn. discriminate.
  - run. rewrite E. run. rewrite E. discriminate.
Qed.

Lemma create_result_table_on_table
        (s : Query_result_intersect) (column_types : list Item) (d : bool)
        (options : Z) (alias : string) (bits create : bool) :
  table s <> None ->
  create_result_table column_types d options alias bits create s =
    (Abort AssertionFailed, s, []).
Proof.
  intros Ht. run. destruct (table s); [reflexivity|congruence].
Qed.

(** X8. Once a table is attached, it stays attached: no method of the class
    sets the pointer back to null (reset and cleanup empty the table, they
    do not release it), so after any sequence of calls create_result_table
    still fails its assertion and changes nothing. *)
Theorem table_stays_attached (ms : list Method)
                             (s : Query_result_intersect) :
  table s <> None ->
  table (exec (invoke_all ms) s) <> None
  /\ forall (column_types : list Item) (d : bool) (options : Z)
            (alias : string) (bits create : bool),
       create_result_table column_types d options alias bits create
                           (exec (invoke_all ms) s) =
         (Abort AssertionFailed, exec (invoke_all ms) s, []).
Proof.
  intros Ht.
  assert (H : table (exec (invoke_all ms) s) <> None).
  { revert s Ht. induction ms as [|m ms IH]; intros s Ht; [exact Ht|].
    pose proof (invoke_keeps_table m s Ht) as H1.
    unfold exec in *. cbn [invoke_all]. unfold bind, ret.
    destruct (invoke m s) as [[r1 s1] l1]. cbn [fst snd] in *.
    destruct r1 as [b|c]; [|exact H1].
    specialize (IH s1 H1).
    destruct (invoke_all ms s1) as [[r2 s2] l2]. cbn [fst snd] in *.
    destruct r2; exact IH. }
  split; [exact H|].
  intros. apply create_result_table_on_table. exact H.
Qed.

(** X9. create_result_table reports an error exactly when create_tmp_table
    returns no table.  The failed call makes no handler call, leaves the
    table pointer null and the row count as it was, and can be repeated with
    the same result.  A successful call with create_table = false stores
    the table as create_tmp_table returned it: neither ha_extra nor
    ha_index_init is called on its handler. *)
Theorem create_result_table_outcome
          (column_types : list Item) (d : bool) (options : Z)
          (alias : string) (bits create : bool)
          (s : Query_result_intersect) :
  table s = None ->
  let fields := VisibleFields column_types in
  let p := provisioning_param (unit_ s) fields bits create in
  let provision := create_result_table column_types d options alias bits
                                       create in
  let s1 := mkSink (unit_ s) p (m_rows_in_table s) None in
  (result_of provision s = Ret true <->
   create_tmp_table p fields d options alias = None)
  /\ (create_tmp_table p fields d options alias = None ->
      provision s = (Ret true, s1, [Call_create_tmp_table p d])
      /\ provision s1 = (Ret true, s1, [Call_create_tmp_table p d]))
  /\ (forall t0 : Table,
        create_tmp_table p fields d options alias = Some t0 ->
        result_of provision s = Ret false
        /\ row_count (exec provision s) = row_count s
        /\ (create = false ->
            provision s =
              (Ret false, mkSink (unit_ s) p (m_rows_in_table s) (Some t0),
               [Call_create_tmp_table p d]))).
Proof.
  intros Ht fields p provision s1. subst fields p provision s1.
  split; [|split].
  - run. rewrite Ht. run.
    destruct (create_tmp_table _ _ _ _ _) as [t0|]; run.
    + destruct create; run.
      * destruct (hash_field t0); run; split; discriminate.
      * split; discriminate.
    + split; reflexivity.
  - intros Hc. split.
    + run. rewrite Ht. run. rewrite Hc. reflexivity.
    + run. rewrite Hc. reflexivity.
  - intros t0 Hc. run. rewrite Ht. run. rewrite Hc. run.
    destruct create; run.
    + destruct (hash_field t0); run; repeat split; discriminate.
    + repeat split.
Qed.

(** X10. The parameter object that create_result_table hands to
    create_tmp_table: skip_create_table is the negation of create_table,
    bit_fields_as_long is the argument, the counts are those of the visible
    column types, and the two uniqueness flags are set independently of each
    other: a recursive query expression clears can_use_pk_for_unique and
    nothing else, a mixed one sets force_hash_field_for_unique and nothing
    else, and without a query expression (prepare was not called) both keep
    the values of a fresh Temp_table_param.  The object is also what the
    sink keeps in tmp_table_param. *)
Theorem create_result_table_flags
          (column_types : list Item) (d : bool) (options : Z)
          (alias : string) (bits create : bool)
          (s : Query_result_intersect) :
  table s = None ->
  exists (p : Temp_table_param) (rest : list Call),
    calls_of (create_result_table column_types d options alias bits create)
             s = Call_create_tmp_table p d :: rest
    /\ tmp_table_param
         (exec (create_result_table column_types d options alias bits
                                    create) s) = p
    /\ counts p = count_field_types (VisibleFields column_types)
    /\ skip_create_table p = negb create
    /\ bit_fields_as_long p = bits
    /\ can_use_pk_for_unique p =
       match unit_ s with
       | Some u =>
           if is_recursive u then false
           else can_use_pk_for_unique Temp_table_param_default
       | None => can_use_pk_for_unique Temp_table_param_default
       end
    /\ force_hash_field_for_unique p =
       match unit_ s with
       | Some u =>
           if mixed_intersect_operators u then true
           else force_hash_field_for_unique Temp_table_param_default
       | None => force_hash_field_for_unique Temp_table_param_default
       end.
Proof.
  intros Ht.
  exists (provisioning_param (unit_ s) (VisibleFields column_types) bits
                             create).
  assert (Hflags :
    forall q, q = provisioning_param (unit_ s) (VisibleFields column_types)
                                     bits create ->
    counts q = count_field_types (VisibleFields column_types)
    /\ skip_create_table q = negb create
    /\ bit_fields_as_long q = bits
    /\ can_use_pk_for_unique q =
       match unit_ s with
       | Some u =>
           if is_recursive u then false
           else can_use_pk_for_unique Temp_table_param_default
       | None => can_use_pk_for_unique Temp_table_param_default
       end
    /\ force_hash_field_for_unique q =
       match unit_ s with
       | Some u =>
           if mixed_intersect_operators u then true
           else force_hash_field_for_unique Temp_table_param_default
       | None => force_hash_field_for_unique Temp_table_param_default
       end).
  { intros q ->. unfold provisioning_param, shape_flags.
    destruct (unit_ s) as [[[|] [|]]|]; cbn; repeat split. }
  run. rewrite Ht. run.
  destruct (create_tmp_table _ _ _ _ _) as [t0|]; run.
  - destruct create; run.
    + destruct (hash_field t0); run;
        (eexists; split; [reflexivity|]; split; [reflexivity|];
         apply Hflags; reflexivity).
    + eexists; split; [reflexivity|]; split; [reflexivity|].
      apply Hflags; reflexivity.
  - eexists; split; [reflexivity|]; split; [reflexivity|].
    apply Hflags; reflexivity.
Qed.

(** X11. Hidden column types never reach the storage layer: VisibleFields
    keeps the items that are not hidden, in their order, so a hidden item
    anywhere in the column types changes nothing of what
    create_result_table does. *)
Theorem create_result_table_ignores_hidden
          (before after : list Item) (h : Item) (d : bool) (options : Z)
          (alias : string) (bits create : bool)
          (s : Query_result_intersect) :
  hidden h = true ->
  VisibleFields (before ++ h :: after) = VisibleFields (before ++ after)
  /\ Forall (fun i => hidden i = false)
            (VisibleFields (before ++ h :: after))
  /\ create_result_table (before ++ h :: after) d options alias bits
                         create s =
     create_result_table (before ++ after) d options alias bits create s.
Proof.
  intros Hh.
  assert (E : VisibleFields (before ++ h :: after) =
              VisibleFields (before ++ after)).
  { unfold VisibleFields. rewrite !filter_app. cbn [filter].
    rewrite Hh. reflexivity. }
  split; [exact E|]. split.
  - apply Forall_forall. intros i Hi. unfold VisibleFields in Hi.
    apply filter_In in Hi. destruct Hi as [_ Hi].
    apply negb_true_iff in Hi. exact Hi.
  - unfold create_result_table. rewrite E. reflexivity.
Qed.

(** X12. The handler is configured only for a table that is created, and
    its index is initialized only for a table with a hash field: in
    create_result_table, ha_extra is called exactly when create_table is set
    and a table was obtained, and ha_index_init exactly when moreover the
    table has a hash field; in send_data, ha_index_init is called only after
    a promotion and only on a table with a hash field. *)
Theorem index_init_only_with_hash_field :
  (forall (column_types : list Item) (d : bool) (options : Z)
          (alias : string) (bits create : bool)
          (s : Query_result_intersect),
      table s = None ->
      let created :=
        create_tmp_table
          (provisioning_param (unit_ s) (VisibleFields column_types) bits
                              create)
          (VisibleFields column_types) d options alias in
      let l := calls_of (create_result_table column_types d options alias
                                             bits create) s in
      (In (Call_ha_extra HA_EXTRA_IGNORE_DUP_KEY) l <->
       create = true /\ created <> None)
      /\ (In Call_ha_index_init l <->
          create = true
          /\ exists t0, created = Some t0 /\ hash_field t0 = true))
  /\ (forall (values : list Item) (s : Query_result_intersect),
        In Call_ha_index_init (calls_of (send_data values) s) ->
        In Call_promote (calls_of (send_data values) s)
        /\ exists t', table (exec (send_data values) s) = Some t'
                      /\ hash_field t' = true).
Proof.
  split.
  - intros column_types d options alias bits create s Ht created l.
    subst created l. run. rewrite Ht. run.
    destruct (create_tmp_table _ _ _ _ _) as [t0|]; run.
    + destruct create; run.
      * destruct (hash_field t0) eqn:Hh; run; cbn [In]; split; split.
        -- intros _. split; [reflexivity|discriminate].
        -- intros _. auto.
        -- intros _. split; [reflexivity|]. exists t0. auto.
        -- intros _. auto.
        -- intros _. split; [reflexivity|discriminate].
        -- intros _. auto.
        -- intros [H|[H|[]]]; discriminate H.
        -- intros (_ & t1 & H1 & H2). inversion H1; subst. congruence.
      * cbn [In]. split; split.
        -- intros [H|[]]. discriminate H.
        -- intros [H _]. discriminate H.
        -- intros [H|[]]. discriminate H.
        -- intros [H _]. discriminate H.
    + cbn [In]. split; split.
      * intros [H|[]]. discriminate H.
      * intros [_ H]. congruence.
      * intros [H|[]]. discriminate H.
      * intros (_ & t1 & H1 & _). discriminate H1.
  - intros values s. run.
    destruct (table s) as [t|]; run; [|intros []].
    destruct (fill_record t values) as [err r]. run.
    destruct err; run; [intros [H|[]]; discriminate H|].
    destruct (check_unique_constraint (set_record_0 t r)) as [u t2]. run.
    destruct u; run; [|intros [H|[H|[]]]; discriminate H].
    destruct (ha_write_row (file t2) (record_0 t2)) as [e h]. run.
    destruct (e =? 0); run; [intros [H|[H|[H|[]]]]; discriminate H|].
    destruct (is_ignorable_error h e) eqn:Hi; run; rewrite ?Hi; run;
      [intros [H|[H|[H|[]]]]; discriminate H|].
    destruct (is_capacity_exceeded e); run;
      [|intros [H|[H|[H|[]]]]; discriminate H].
    destruct (promote h) as [h4|]; run;
      [|intros [H|[H|[H|[H|[]]]]]; discriminate H].
    destruct (ha_write_row h4 (record_0 t2)) as [e2 h5]. run.
    destruct (e2 =? 0); run;
      [|intros [H|[H|[H|[H|[H|[]]]]]]; discriminate H].
    destruct (hash_field t2) eqn:Hh; run.
    + intros _. split; [cbn; auto|].
      eexists. split; [reflexivity|]. exact Hh.
    + intros [H|[H|[H|[H|[H|[]]]]]]; discriminate H.
Qed.

End MethodFacts.

(** * The further properties at concrete inputs *)

Lemma send_data_requires_table_witness :
  let e := Ref.plain_env 4 in
  table (Query_result_intersect_new (S := Ref.storage e)) = None
  /\ send_data (S := Ref.storage e) (Ref.ints [1; 2])
               (Query_result_intersect_new (S := Ref.storage e)) =
       (Abort NullDereference,
        Query_result_intersect_new (S := Ref.storage e), []).
Proof.
  intros e. split; [reflexivity|].
  exact (proj1 (send_data_requires_table (S := Ref.storage e)
                  (Ref.ints [1; 2])
                  (Query_result_intersect_new (S := Ref.storage e)))
           eq_refl).
Defined.

Lemma send_data_rejects_found_row_witness :
  let e := Ref.plain_env 4 in
  let t : Ref.tbl :=
    {| file :=
         {| Ref.columns := 2; Ref.rows := [[1; 2]];
            Ref.representation := Ref.InMemoryStore;
            Ref.native_key := false; Ref.created := true;
            Ref.ignore_dup_key := true; Ref.index_inited := true |};
       record_0 := []; hash_field := true |} in
  let s := Ref.sample_sink e 1 t in
  check_unique_constraint (Storage := Ref.storage e)
    (set_record_0 (S := Ref.storage e) t [1; 2]) =
    (false, set_record_0 (S := Ref.storage e) t [1; 2])
  /\ row_count (exec (send_data (S := Ref.storage e) (Ref.ints [1; 2])) s)
     = 1
  /\ count_calls is_write
       (calls_of (send_data (S := Ref.storage e) (Ref.ints [1; 2])) s) =
     0%nat.
Proof.
  intros e t s. split; [reflexivity|].
  pose proof (send_data_rejects_found_row (S := Ref.storage e)
                (Ref.ints [1; 2]) s t
                (set_record_0 (S := Ref.storage e) t [1; 2]) [1; 2]
                eq_refl eq_refl eq_refl) as (_ & Hr & Hw & _).
  split; [exact Hr|exact Hw].
Defined.

Lemma send_data_counts_written_row_witness :
  let e := Ref.plain_env 4 in
  let t := Ref.sample_table [] Ref.InMemoryStore in
  let s := Ref.sample_sink e (ha_rows_modulus - 1) t in
  row_count s = ha_rows_modulus - 1
  /\ row_count (exec (send_data (S := Ref.storage e) (Ref.ints [1; 2])) s)
     = 0
  /\ result_of (insert (S := Ref.storage e) (Ref.ints [1; 2])) s =
     Ret Inserted.
Proof.
  intros e t s. split; [reflexivity|].
  pose proof (send_data_counts_written_row (S := Ref.storage e)
                (Ref.ints [1; 2]) s t
                (set_record_0 (S := Ref.storage e) t [1; 2]) [1; 2]
                (Ref.with_rows (Ref.sample_store [] Ref.InMemoryStore)
                               [[1; 2]])
                eq_refl eq_refl eq_refl eq_refl)
    as (_ & _ & _ & _ & Hwrap & _ & Hi).
  split; [exact (Hwrap eq_refl)|exact Hi].
Defined.

Lemma row_count_is_inserted_outcomes_witness :
  let e := Ref.plain_env 4 in
  let s := Ref.sample_sink e 0 (Ref.sample_table [] Ref.InMemoryStore) in
  let vs := [Ref.ints [1; 2]; Ref.ints [1; 2]; Ref.ints [3; 4]] in
  result_of (insert_all (S := Ref.storage e) vs) s =
    Ret [Inserted; DuplicateRejected; Inserted]
  /\ row_count (exec (insert_all (S := Ref.storage e) vs) s) = 0 + 2.
Proof.
  intros e s vs. split; [reflexivity|].
  pose proof (row_count_is_inserted_outcomes (S := Ref.storage e) vs s
                [Inserted; DuplicateRejected; Inserted] eq_refl)
    as (_ & _ & _ & H).
  exact (H (Z.le_refl 0) eq_refl).
Defined.

Lemma table_stays_attached_witness :
  let e := Ref.plain_env 4 in
  let s := Ref.sample_sink e 1 (Ref.sample_table [[1; 2]]
                                  Ref.InMemoryStore) in
  let ms : list (Method (S := Ref.storage e)) :=
    [call_reset (S := Ref.storage e);
     call_send_data (S := Ref.storage e) (Ref.ints [3; 4]);
     call_cleanup (S := Ref.storage e)] in
  table s <> None
  /\ table (exec (invoke_all (S := Ref.storage e) ms) s) <> None
  /\ create_result_table (S := Ref.storage e) (Ref.ints [0; 0]) true 0
       EmptyString false true
       (exec (invoke_all (S := Ref.storage e) ms) s) =
     (Abort AssertionFailed,
      exec (invoke_all (S := Ref.storage e) ms) s, []).
Proof.
  intros e s ms.
  assert (Ht : table s <> None) by discriminate.
  split; [exact Ht|].
  pose proof (table_stays_attached (S := Ref.storage e) ms s Ht)
    as (H1 & H2).
  split; [exact H1|].
  exact (H2 (Ref.ints [0; 0]) true 0 EmptyString false true).
Defined.

Lemma create_result_table_outcome_witness :
  let e := Ref.mkEnv false 4 true None true in
  let s := Query_result_intersect_new (S := Ref.storage e) in
  table s = None
  /\ result_of (create_result_table (S := Ref.storage e) (Ref.ints [0; 0])
                  true 0 EmptyString false true) s = Ret true
  /\ table (exec (create_result_table (S := Ref.storage e)
                    (Ref.ints [0; 0]) true 0 EmptyString false true) s) =
     None.
Proof.
  intros e s. split; [reflexivity|].
  pose proof (create_result_table_outcome (S := Ref.storage e)
                (Ref.ints [0; 0]) true 0 EmptyString false true s eq_refl)
    as (_ & H & _).
  destruct (H eq_refl) as [E _].
  unfold result_of, exec. rewrite E. split; reflexivity.
Defined.

Lemma create_result_table_flags_witness :
  let e := Ref.plain_env 4 in
  let s := mkSink (S := Ref.storage e)
                  (Some (mkQuery_expression true false))
                  Temp_table_param_default 0 None in
  table s = None
  /\ exists p rest,
       calls_of (create_result_table (S := Ref.storage e)
                   (Ref.ints [0; 0]) true 0 EmptyString false true) s =
         Call_create_tmp_table p true :: rest
       /\ can_use_pk_for_unique p = false
       /\ force_hash_field_for_unique p = false.
Proof.
  intros e s. split; [reflexivity|].
  destruct (create_result_table_flags (S := Ref.storage e)
              (Ref.ints [0; 0]) true 0 EmptyString false true s eq_refl)
    as (p & rest & Hl & _ & _ & _ & _ & Hpk & Hf).
  exists p, rest. split; [exact Hl|]. split; [exact Hpk|exact Hf].
Defined.

Lemma create_result_table_ignores_hidden_witness :
  let e := Ref.plain_env 4 in
  let h := Ref.mkItem (Some 9) true in
  hidden (Storage := Ref.storage e) h = true
  /\ create_result_table (S := Ref.storage e)
       ([Ref.mkItem (Some 0) false] ++ h :: [Ref.mkItem (Some 0) false])
       true 0 EmptyString false true
       (Query_result_intersect_new (S := Ref.storage e)) =
     create_result_table (S := Ref.storage e)
       ([Ref.mkItem (Some 0) false] ++ [Ref.mkItem (Some 0) false])
       true 0 EmptyString false true
       (Query_result_intersect_new (S := Ref.storage e)).
Proof.
  intros e h. split; [reflexivity|].
  exact (proj2 (proj2
           (create_result_table_ignores_hidden (S := Ref.storage e)
              [Ref.mkItem (Some 0) false] [Ref.mkItem (Some 0) false] h
              true 0 EmptyString false true
              (Query_result_intersect_new (S := Ref.storage e))
              eq_refl))).
Defined.

Lemma index_init_only_with_hash_field_witness :
  let e := Ref.plain_env 4 in
  let s := mkSink (S := Ref.storage e)
                  (Some (mkQuery_expression true false))
                  Temp_table_param_default 0 None in
  table s = None
  /\ In Call_ha_index_init
       (calls_of (create_result_table (S := Ref.storage e)
                    (Ref.ints [0; 0]) true 0 EmptyString false true) s).
Proof.
  intros e s. split; [reflexivity|].
  apply (proj2 (proj2
           (proj1 (index_init_only_with_hash_field (S := Ref.storage e))
              (Ref.ints [0; 0]) true 0 EmptyString false true s eq_refl))).
  split; [reflexivity|]. eexists. split; reflexivity.
Defined.
